(** * Trading monitor front end: symbol selector widget and dashboard controller

    A shallow embedding of [SymbolSelector.jsx]: the [SymbolSelector]
    widget (free text <-> checkbox reconciliation) and the [App] controller
    (HTTP polling and state refresh), with the properties of the
    specification stated and proved over them. *)

From Stdlib Require Import List NArith Ascii String Bool Lia DecimalString.
From stdpp Require Import gmap.
Import ListNotations.

Local Open Scope N_scope.
Local Open Scope list_scope.

(** ** JavaScript strings

    A JavaScript string is a sequence of UTF-16 code units.  Literals of the
    source are written [js "..."]. *)

Abbreviation jsstring := (list N).

Definition js (s : string) : jsstring :=
  List.map N_of_ascii (list_ascii_of_string s).

Definition comma : N := 44.

(** Truthiness of a string ([Boolean(s)], [s && ...]): non-empty. *)
Definition nonempty (s : jsstring) : bool :=
  match s with
  | [] => false
  | _ :: _ => true
  end.

(** [===] on strings. *)
Fixpoint str_eqb (a b : jsstring) : bool :=
  match a, b with
  | [], [] => true
  | x :: a', y :: b' => (x =? y) && str_eqb a' b'
  | _, _ => false
  end.

(** [Array.prototype.includes] on an array of strings. *)
Fixpoint includes (l : list jsstring) (s : jsstring) : bool :=
  match l with
  | [] => false
  | x :: l' => str_eqb x s || includes l' s
  end.

(** ECMAScript WhiteSpace and LineTerminator code points, the characters
    [String.prototype.trim] strips: TAB, LF, VT, FF, CR, SP, NBSP, the other
    space separators (Zs), LS, PS and the BOM. *)
Definition is_ws (c : N) : bool :=
  ((9 <=? c) && (c <=? 13))
  || (c =? 32) || (c =? 160) || (c =? 5760)
  || ((8192 <=? c) && (c <=? 8202))
  || (c =? 8232) || (c =? 8233) || (c =? 8239) || (c =? 8287)
  || (c =? 12288) || (c =? 65279).

Fixpoint drop_ws (s : jsstring) : jsstring :=
  match s with
  | [] => []
  | c :: s' => if is_ws c then drop_ws s' else s
  end.

(** [s.trim()] *)
Definition trim (s : jsstring) : jsstring :=
  rev (drop_ws (rev (drop_ws s))).

(** [s.split(',')]: never empty, [''.split(',')] is [['']]. *)
Fixpoint split_comma (s : jsstring) : list jsstring :=
  match s with
  | [] => [[]]
  | c :: s' =>
      if c =? comma then [] :: split_comma s'
      else match split_comma s' with
           | [] => [[c]]
           | t :: ts => (c :: t) :: ts
           end
  end.

(** [l.join(',')] *)
Fixpoint join_comma (l : list jsstring) : jsstring :=
  match l with
  | [] => []
  | [x] => x
  | x :: rest => x ++ comma :: join_comma rest
  end.

(** [text.split(',').map(s => s.trim()).filter(Boolean)], the tokenization
    every path of the widget uses. *)
Definition tokens (text : jsstring) : list jsstring :=
  List.filter nonempty (List.map trim (split_comma text)).

(** ** The symbol selector widget *)

Module Selector.

(** [symbolCategories]; the keys are kept in insertion order. *)
Definition symbolCategories : list (jsstring * list jsstring) :=
  [ (js "Major Forex",
      [js "EURUSD"; js "GBPUSD"; js "AUDUSD"; js "NZDUSD";
       js "USDJPY"; js "USDCHF"; js "USDCAD"]);
    (js "Crypto", [js "BTCUSD"]);
    (js "Indices", [js "NAS100"]) ].

(** [Object.values(symbolCategories).flat()] *)
Definition allCommonSymbols : list jsstring :=
  concat (List.map snd symbolCategories).

(** The checkbox map [selectedSymbols] is a plain object from symbol to
    boolean.  [Object.keys] lists string keys in insertion order, so the
    object is an association list: writing an existing key updates it in
    place, writing a new key appends it.  (Keys that look like array indices
    would be listed first; no catalog symbol does.) *)
Abbreviation obj := (list (jsstring * bool)).

Fixpoint obj_get (o : obj) (k : jsstring) : option bool :=
  match o with
  | [] => None
  | (k', v) :: o' => if str_eqb k' k then Some v else obj_get o' k
  end.

(** [o[k]] used as a condition: a missing key reads [undefined], falsy. *)
Definition obj_truthy (o : obj) (k : jsstring) : bool :=
  match obj_get o k with
  | Some b => b
  | None => false
  end.

(** [{ ...o, [k]: v }] *)
Fixpoint obj_set (k : jsstring) (v : bool) (o : obj) : obj :=
  match o with
  | [] => [(k, v)]
  | (k', v') :: o' =>
      if str_eqb k' k then (k', v) :: o' else (k', v') :: obj_set k v o'
  end.

(** [Object.keys(o)] *)
Definition obj_keys (o : obj) : list jsstring := List.map fst o.

(** Props and state of one render.  [value] is the controlled text,
    [disabled] the prop of the same name. *)
Record Widget := mkWidget {
  value : jsstring;
  disabled : bool;
  selectedSymbols : obj;
  customSymbol : jsstring
}.

(** What a handler does: the argument of its [onChange] call, if it makes
    one, and the next values of the two state slots. *)
Record Outcome := mkOutcome {
  onChange_call : option jsstring;
  next_selected : obj;
  next_custom : jsstring
}.

Definition unchanged (w : Widget) : Outcome :=
  mkOutcome None (selectedSymbols w) (customSymbol w).

(** [allCommonSymbols.forEach(symbol => { acc[symbol] = symbolsArray.includes(symbol) })] *)
Definition derive (symbolsArray : list jsstring) (acc : obj) : obj :=
  fold_left (fun o symbol => obj_set symbol (includes symbolsArray symbol) o)
            allCommonSymbols acc.

(** The mount effect: [initialSelected] built from the initial [value]. *)
Definition initialSelected (value0 : jsstring) : obj :=
  derive (tokens value0) [].

(** [updateSymbolInput(newSelectedSymbols)]: the text handed to [onChange]. *)
Definition updateSymbolInput (w : Widget) (newSelectedSymbols : obj) : jsstring :=
  let checkedSymbols :=
    List.filter (fun key => obj_truthy newSelectedSymbols key)
                (obj_keys newSelectedSymbols) in
  let currentCustomSymbols :=
    List.filter (fun s => nonempty s && negb (includes allCommonSymbols s))
                (List.map trim (split_comma (value w))) in
  join_comma (checkedSymbols ++ currentCustomSymbols).

Definition handleSymbolToggle (w : Widget) (symbol : jsstring) : Outcome :=
  if disabled w then unchanged w
  else
    let newSelectedSymbols :=
      obj_set symbol (negb (obj_truthy (selectedSymbols w) symbol))
              (selectedSymbols w) in
    mkOutcome (Some (updateSymbolInput w newSelectedSymbols))
              newSelectedSymbols (customSymbol w).

Definition handleAddCustomSymbol (w : Widget) : Outcome :=
  if negb (nonempty (customSymbol w)) || disabled w then unchanged w
  else
    let symbols := tokens (value w) in
    let call :=
      if negb (includes symbols (customSymbol w))
      then Some (join_comma (symbols ++ [customSymbol w]))
      else None in
    let sel :=
      if includes allCommonSymbols (customSymbol w)
      then obj_set (customSymbol w) true (selectedSymbols w)
      else selectedSymbols w in
    mkOutcome call sel [].

Definition handleDirectInputChange (w : Widget) (newInput : jsstring) : Outcome :=
  let symbolsArray := tokens newInput in
  mkOutcome (Some newInput) (derive symbolsArray (selectedSymbols w))
            (customSymbol w).

(** The parent keeps [value] controlled: an [onChange] call becomes the
    [value] of the next render, the state setters the next state. *)
Definition commit (w : Widget) (o : Outcome) : Widget :=
  mkWidget (match onChange_call o with Some t => t | None => value w end)
           (disabled w) (next_selected o) (next_custom o).

(** The three edit paths. *)
Inductive Edit :=
| Toggle (symbol : jsstring)
| DirectInput (newInput : jsstring)
| AddCustom.

Definition handle (w : Widget) (e : Edit) : Outcome :=
  match e with
  | Toggle symbol => handleSymbolToggle w symbol
  | DirectInput newInput => handleDirectInputChange w newInput
  | AddCustom => handleAddCustomSymbol w
  end.

Definition step (w : Widget) (e : Edit) : Widget := commit w (handle w e).

End Selector.

(** ** The dashboard controller *)

(** What the embedding leaves to the JavaScript engine: IEEE doubles with
    their truthiness and printing, [parseFloat], and the wording of the
    errors the engine itself raises. *)
Class JsEngine := {
  num : Type;
  num_truthy : num -> bool;
  num_to_string : num -> jsstring;
  parseFloat : jsstring -> num;
  null_property_message : jsstring -> jsstring;
  uri_malformed_message : jsstring;
  cannot_convert_message : jsstring
}.

(** [${n}] for a non-negative integer such as [response.status]. *)
Definition decimal (n : N) : jsstring :=
  js (DecimalString.NilZero.string_of_uint (N.to_uint n)).

Fixpoint starts_with (s p : jsstring) : bool :=
  match p, s with
  | [], _ => true
  | _ :: _, [] => false
  | y :: p', x :: s' => (x =? y) && starts_with s' p'
  end.

(** [s.includes(p)] on strings. *)
Fixpoint str_includes (s p : jsstring) : bool :=
  starts_with s p ||
  match s with
  | [] => false
  | _ :: s' => str_includes s' p
  end.

(** [encodeURIComponent] throws a URIError on a lone surrogate. *)
Definition is_high_surrogate (c : N) : bool := (55296 <=? c) && (c <=? 56319).
Definition is_low_surrogate (c : N) : bool := (56320 <=? c) && (c <=? 57343).

Fixpoint well_formed_utf16 (s : jsstring) : bool :=
  match s with
  | [] => true
  | c :: s' =>
      if is_high_surrogate c then
        match s' with
        | d :: s'' => is_low_surrogate d && well_formed_utf16 s''
        | [] => false
        end
      else negb (is_low_surrogate c) && well_formed_utf16 s'
  end.

Inductive view := Dashboard | SymbolDetailView.

Section Controller.
Context `{JsEngine}.

(** A decoded JSON body. *)
#[local] Unset Elimination Schemes.
Inductive json :=
| JNull
| JBool (b : bool)
| JNum (n : num)
| JStr (s : jsstring)
| JArr (items : list json)
| JObj (fields : list (jsstring * json)).
#[local] Set Elimination Schemes.

(** Truthiness of a value. *)
Definition truthy (v : json) : bool :=
  match v with
  | JNull => false
  | JBool b => b
  | JNum n => num_truthy n
  | JStr s => nonempty s
  | JArr _ | JObj _ => true
  end.

(** ToString, as [new Error(v)] and template literals apply it, for a value
    whose conversion completes (see [converts] below; the state slots it is
    applied to hold a number or a string). *)
Fixpoint to_string (v : json) : jsstring :=
  match v with
  | JNull => js "null"
  | JBool true => js "true"
  | JBool false => js "false"
  | JNum n => num_to_string n
  | JStr s => s
  | JArr items =>
      join_comma
        (List.map (fun e => match e with JNull => [] | _ => to_string e end) items)
  | JObj _ => js "[object Object]"
  end.

Fixpoint field (fields : list (jsstring * json)) (k : jsstring) : option json :=
  match fields with
  | [] => None
  | (k', v) :: rest => if str_eqb k' k then Some v else field rest k
  end.

(** Whether ToString completes.  A decoded object converts through
    [Object.prototype.toString] unless it has an own [toString] key: that
    value is not callable, [valueOf] gives no primitive either, and the
    conversion throws a TypeError.  An array converts through [join], which
    converts every element that is not [null]. *)
Fixpoint converts (v : json) : bool :=
  match v with
  | JArr items =>
      forallb (fun e => match e with JNull => true | _ => converts e end) items
  | JObj fields =>
      match field fields (js "toString") with
      | Some _ => false
      | None => true
      end
  | _ => true
  end.

(** Reading [v.k] for a key no prototype defines (the controller reads only
    [active] and [detail]): a TypeError on [null], the own property of an
    object, [undefined] otherwise. *)
Inductive read := Throws | Undefined | Value (v : json).

Definition get_prop (v : json) (k : jsstring) : read :=
  match v with
  | JNull => Throws
  | JObj fields =>
      match field fields k with
      | Some x => Value x
      | None => Undefined
      end
  | _ => Undefined
  end.

Record exn := mkExn { exn_name : jsstring; exn_message : jsstring }.

Definition Error (message : jsstring) : exn := mkExn (js "Error") message.
Definition TypeError (message : jsstring) : exn := mkExn (js "TypeError") message.
Definition URIError (message : jsstring) : exn := mkExn (js "URIError") message.

(** The backend's endpoints, with what each call sends. *)
Inductive request :=
| GetHealth
| GetMonitorStatus
| GetSignals
| PostStart (symbols : list jsstring) (risk_percentage account_size : num)
| PostStop
| PostChart (symbol : jsstring)
| PostLevels (symbol : jsstring)
| PostAnalyze (symbol risk_percentage account_size : jsstring)
| PostPrice (symbol : jsstring).

(** A response: its status, and what [response.json()] settles to. *)
Record response := mkResponse {
  status : N;
  body : exn + json
}.

Definition ok (r : response) : bool := (200 <=? status r) && (status r <=? 299).

(** [fetch] rejects with a TypeError on a network or CORS failure and
    resolves with a response otherwise, whatever its status. *)
Inductive fetch_result :=
| NetworkError (message : jsstring)
| Responded (r : response).

Record SymbolDetail := mkDetail {
  chart : json;
  levels : json;
  analysis : json;
  price : json
}.

(** The state slots of [App]. *)
Record AppState := mkApp {
  monitorStatus : json;
  signals : json;
  healthStatus : json;
  symbolDetails : gmap jsstring SymbolDetail;
  selectedSymbol : option jsstring;
  isLoading : bool;
  error : option jsstring;
  symbolInput : jsstring;
  riskPercentage : json;
  accountSize : json;
  activeView : view
}.

(** The state of the first render. *)
Definition initialState (half hundred_thousand : num) : AppState :=
  mkApp (JObj [(js "active", JBool false); (js "symbols", JArr []);
               (js "start_time", JNull)])
        (JObj [])
        (JObj [(js "status", JStr (js "unknown"));
               (js "mt5_status", JStr (js "Unknown"))])
        ∅ None false None (js "EURUSD,GBPUSD,USDJPY,XAUUSD")
        (JNum half) (JNum hundred_thousand) Dashboard.

(** The committed state, the requests issued so far and the labels of the
    [console.error] calls. *)
Record World := mkWorld {
  st : AppState;
  requests : list request;
  console : list jsstring
}.

(** The backend: its answer to a request may depend on the requests that
    came before. *)
Variable net : list request -> request -> fetch_result.

(** An asynchronous computation: it changes the world and settles, rejected
    or fulfilled. *)
Definition Async (A : Type) : Type := World -> World * (exn + A).

Definition ret {A} (a : A) : Async A := fun w => (w, inr a).

Definition throw {A} (e : exn) : Async A := fun w => (w, inl e).

Definition bind {A B} (m : Async A) (k : A -> Async B) : Async B :=
  fun w =>
    match m w with
    | (w', inr a) => k a w'
    | (w', inl e) => (w', inl e)
    end.

Definition try_catch {A} (m : Async A) (handler : exn -> Async A) : Async A :=
  fun w =>
    match m w with
    | (w', inl e) => handler e w'
    | settled => settled
    end.

Definition finally {A} (m : Async A) (cleanup : Async unit) : Async A :=
  fun w =>
    match m w with
    | (w', result) =>
        match cleanup w' with
        | (w'', inl e) => (w'', inl e)
        | (w'', inr _) => (w'', result)
        end
    end.

Notation "x <- m ;; k" := (bind m (fun x => k))
  (at level 100, m at next level, right associativity).
Notation "m ;;; k" := (bind m (fun _ => k))
  (at level 100, right associativity).

(** *** State setters, request and console primitives *)

Definition with_monitorStatus (v : json) (s : AppState) : AppState :=
  mkApp v (signals s) (healthStatus s) (symbolDetails s)
        (selectedSymbol s) (isLoading s) (error s) (symbolInput s)
        (riskPercentage s) (accountSize s) (activeView s).

Definition with_signals (v : json) (s : AppState) : AppState :=
  mkApp (monitorStatus s) v (healthStatus s) (symbolDetails s)
        (selectedSymbol s) (isLoading s) (error s) (symbolInput s)
        (riskPercentage s) (accountSize s) (activeView s).

Definition with_healthStatus (v : json) (s : AppState) : AppState :=
  mkApp (monitorStatus s) (signals s) v (symbolDetails s)
        (selectedSymbol s) (isLoading s) (error s) (symbolInput s)
        (riskPercentage s) (accountSize s) (activeView s).

Definition with_symbolDetails (v : gmap jsstring SymbolDetail) (s : AppState) : AppState :=
  mkApp (monitorStatus s) (signals s) (healthStatus s) v
        (selectedSymbol s) (isLoading s) (error s) (symbolInput s)
        (riskPercentage s) (accountSize s) (activeView s).

Definition with_selectedSymbol (v : option jsstring) (s : AppState) : AppState :=
  mkApp (monitorStatus s) (signals s) (healthStatus s) (symbolDetails s)
        v (isLoading s) (error s) (symbolInput s)
        (riskPercentage s) (accountSize s) (activeView s).

Definition with_isLoading (v : bool) (s : AppState) : AppState :=
  mkApp (monitorStatus s) (signals s) (healthStatus s) (symbolDetails s)
        (selectedSymbol s) v (error s) (symbolInput s)
        (riskPercentage s) (accountSize s) (activeView s).

Definition with_error (v : option jsstring) (s : AppState) : AppState :=
  mkApp (monitorStatus s) (signals s) (healthStatus s) (symbolDetails s)
        (selectedSymbol s) (isLoading s) v (symbolInput s)
        (riskPercentage s) (accountSize s) (activeView s).

Definition with_activeView (v : view) (s : AppState) : AppState :=
  mkApp (monitorStatus s) (signals s) (healthStatus s) (symbolDetails s)
        (selectedSymbol s) (isLoading s) (error s) (symbolInput s)
        (riskPercentage s) (accountSize s) v.

(** A state setter replaces its slot of the committed state. *)
Definition update (f : AppState -> AppState) : Async unit := fun w =>
  (mkWorld (f (st w)) (requests w) (console w), inr tt).

Definition setMonitorStatus (v : json) : Async unit := update (with_monitorStatus v).
Definition setSignals (v : json) : Async unit := update (with_signals v).
Definition setHealthStatus (v : json) : Async unit := update (with_healthStatus v).
Definition setSymbolDetails (v : gmap jsstring SymbolDetail) : Async unit := update (with_symbolDetails v).
Definition setSelectedSymbol (v : option jsstring) : Async unit := update (with_selectedSymbol v).
Definition setIsLoading (v : bool) : Async unit := update (with_isLoading v).
Definition setError (v : option jsstring) : Async unit := update (with_error v).
Definition setActiveView (v : view) : Async unit := update (with_activeView v).

(** [console.error(label, err)]: the label is recorded. *)
Definition console_error (label : jsstring) : Async unit := fun w =>
  (mkWorld (st w) (requests w) (console w ++ [label]), inr tt).

(** [await fetch(...)]: the request is issued, then the backend answers. *)
Definition fetch (req : request) : Async response := fun w =>
  let w' := mkWorld (st w) (requests w ++ [req]) (console w) in
  match net (requests w) req with
  | NetworkError message => (w', inl (TypeError message))
  | Responded r => (w', inr r)
  end.

(** [await response.json()] *)
Definition json_body (r : response) : Async json :=
  match body r with
  | inl e => throw e
  | inr data => ret data
  end.

(** [await Promise.all([a.json(), b.json(), c.json(), d.json()])]: fulfilled
    with the four bodies when all four parse, rejected otherwise.  Which
    rejection wins depends on timing; it only reaches [console.error]. *)
Definition promise_all4 (a b c d : response) : Async (json * json * json * json) :=
  match body a, body b, body c, body d with
  | inr x, inr y, inr z, inr t => ret (x, y, z, t)
  | inl e, _, _, _ => throw e
  | _, inl e, _, _ => throw e
  | _, _, inl e, _ => throw e
  | _, _, _, inl e => throw e
  end.

(** Evaluating [v.k] inside an async function. *)
Definition read_prop (v : json) (k : jsstring) : Async (option json) :=
  match get_prop v k with
  | Throws => throw (TypeError (null_property_message k))
  | Undefined => ret None
  | Value x => ret (Some x)
  end.

(** ToString of a decoded value inside an async function. *)
Definition ToString (v : json) : Async jsstring :=
  if converts v then ret (to_string v)
  else throw (TypeError cannot_convert_message).

Definition truthy_opt (o : option json) : bool :=
  match o with
  | Some v => truthy v
  | None => false
  end.

(** [encodeURIComponent(symbol)], for whether it throws. *)
Definition encodeURIComponent_check (symbol : jsstring) : Async unit :=
  if well_formed_utf16 symbol then ret tt
  else throw (URIError uri_malformed_message).

(** *** The operations of [App]

    Each takes [r], the state of the render whose closure is running: a
    state variable read inside a function is the value of that render, while
    a setter replaces the slot of the committed state. *)

Definition fetchHealthStatus : Async unit :=
  try_catch
    (response <- fetch GetHealth ;;
     (if negb (ok response)
      then throw (Error (js "HTTP error! Status: " ++ decimal (status response)))
      else ret tt) ;;;
     data <- json_body response ;;
     setHealthStatus data ;;;
     setError None)
    (fun err =>
       console_error (js "Error fetching health status:") ;;;
       if str_includes (exn_message err) (js "Failed to fetch")
          || str_eqb (exn_name err) (js "TypeError")
       then
         setError (Some (js "CORS Error: Cannot connect to API server. Make sure the API server is running and has CORS enabled.")) ;;;
         setHealthStatus (JObj [(js "status", JStr (js "error"));
                                (js "mt5_status", JStr (js "Unknown"))])
       else
         setError (Some (js "Could not connect to API server: " ++ exn_message err))).

Definition fetchMonitorStatus : Async unit :=
  try_catch
    (response <- fetch GetMonitorStatus ;;
     data <- json_body response ;;
     setMonitorStatus data)
    (fun err => console_error (js "Error fetching monitor status:")).

Definition fetchSignals (r : AppState) : Async unit :=
  active <- read_prop (monitorStatus r) (js "active") ;;
  if negb (truthy_opt active) then ret tt
  else
    try_catch
      (response <- fetch GetSignals ;;
       data <- json_body response ;;
       setSignals data)
      (fun err => console_error (js "Error fetching signals:")).

Definition startMonitoring (r : AppState) : Async unit :=
  setIsLoading true ;;;
  finally
    (try_catch
       (let symbols := List.map trim (split_comma (symbolInput r)) in
        response <- fetch (PostStart symbols
                             (parseFloat (to_string (riskPercentage r)))
                             (parseFloat (to_string (accountSize r)))) ;;
        (if negb (ok response)
         then
           errorData <- json_body response ;;
           detail <- read_prop errorData (js "detail") ;;
           message <- match detail with
                      | Some d => if truthy d then ToString d
                                  else ret (js "Failed to start monitoring")
                      | None => ret (js "Failed to start monitoring")
                      end ;;
           throw (Error message)
         else ret tt) ;;;
        fetchMonitorStatus ;;;
        setError None)
       (fun err =>
          console_error (js "Error starting monitoring:") ;;;
          setError (Some (exn_message err))))
    (setIsLoading false).

Definition stopMonitoring : Async unit :=
  setIsLoading true ;;;
  finally
    (try_catch
       (response <- fetch PostStop ;;
        (if negb (ok response)
         then
           errorData <- json_body response ;;
           detail <- read_prop errorData (js "detail") ;;
           message <- match detail with
                      | Some d => if truthy d then ToString d
                                  else ret (js "Failed to stop monitoring")
                      | None => ret (js "Failed to stop monitoring")
                      end ;;
           throw (Error message)
         else ret tt) ;;;
        fetchMonitorStatus ;;;
        setError None)
       (fun err =>
          console_error (js "Error stopping monitoring:") ;;;
          setError (Some (exn_message err))))
    (setIsLoading false).

Definition fetchSymbolDetails (r : AppState) (symbol : jsstring) : Async unit :=
  setIsLoading true ;;;
  finally
    (try_catch
       (encodeURIComponent_check symbol ;;;
        chartResponse <- fetch (PostChart symbol) ;;
        levelsResponse <- fetch (PostLevels symbol) ;;
        analysisResponse <- fetch (PostAnalyze symbol
                                     (to_string (riskPercentage r))
                                     (to_string (accountSize r))) ;;
        priceResponse <- fetch (PostPrice symbol) ;;
        data <- promise_all4 chartResponse levelsResponse
                             analysisResponse priceResponse ;;
        (let '(chartData, levelsData, analysisData, priceData) := data in
         setSymbolDetails
           (<[symbol := mkDetail chartData levelsData analysisData priceData]>
              (symbolDetails r))) ;;;
        setSelectedSymbol (Some symbol) ;;;
        setActiveView SymbolDetailView ;;;
        setError None)
       (fun err =>
          console_error (js "Error fetching symbol details:") ;;;
          setError (Some (js "Failed to fetch details for " ++ symbol))))
    (setIsLoading false).

Definition refreshData (r : AppState) : Async unit :=
  fetchHealthStatus ;;;
  fetchMonitorStatus ;;;
  active <- read_prop (monitorStatus r) (js "active") ;;
  if truthy_opt active then fetchSignals r else ret tt.

End Controller.

(** ** More of the widget: category panels and their counters *)

(** The initial [expandedCategories]: every category of
    [Object.keys(symbolCategories)] set to [true]. *)
Definition initialExpanded : Selector.obj :=
  fold_left (fun acc category => Selector.obj_set category true acc)
            (List.map fst Selector.symbolCategories) [].

(** [toggleCategory(category)]: the next [expandedCategories]. *)
Definition toggleCategory (expandedCategories : Selector.obj) (category : jsstring)
  : Selector.obj :=
  Selector.obj_set category
    (negb (Selector.obj_truthy expandedCategories category)) expandedCategories.

(** [symbolCategories[category] || []], for a category name that is not a
    property of [Object.prototype] (the widget passes its own keys). *)
Fixpoint category_symbols (categories : list (jsstring * list jsstring))
         (category : jsstring) : list jsstring :=
  match categories with
  | [] => []
  | (name, symbols) :: rest =>
      if str_eqb name category then symbols else category_symbols rest category
  end.

(** [getSelectedCountByCategory(category)] *)
Definition getSelectedCountByCategory (selectedSymbols : Selector.obj)
           (category : jsstring) : nat :=
  length (List.filter (fun symbol => Selector.obj_truthy selectedSymbols symbol || false)
                      (category_symbols Selector.symbolCategories category)).

(** ** More of the controller: the guard of the detail view *)

Section DetailView.
Context `{JsEngine}.

(** Whether [Object.prototype] has a property of that name: reading
    [symbolDetails[name]] then finds it when the cache has no entry. *)
Variable object_prototype_has : jsstring -> bool.

(** The guard that opens [renderSymbolDetail]:
    [!selectedSymbol || !symbolDetails[selectedSymbol]], under which the view
    shows 'Loading symbol details...'. *)
Definition renderSymbolDetail_loading (s : AppState) : bool :=
  match selectedSymbol s with
  | None => true
  | Some symbol =>
      negb (nonempty symbol)
      || negb (match symbolDetails s !! symbol with
               | Some _ => true
               | None => object_prototype_has symbol
               end)
  end.

End DetailView.

(** ** Vocabulary of the properties *)

(** A token as the tokenization produces them: non-empty, without a comma,
    and with no white space at either end. *)
Definition comma_free (s : jsstring) : Prop := ~ In comma s.

Definition trimmed (s : jsstring) : Prop :=
  drop_ws s = s /\ drop_ws (rev s) = rev s.

Definition token (s : jsstring) : Prop :=
  s <> [] /\ comma_free s /\ trimmed s.

(** A decidable check of [token], to settle it on literals. *)
Definition tokenb (s : jsstring) : bool :=
  nonempty s && negb (existsb (N.eqb comma) s)
  && str_eqb (drop_ws s) s && str_eqb (drop_ws (rev s)) (rev s).

(** The checkbox map as the widget keeps it: every key is a catalog symbol. *)
Definition keys_in_catalog (o : Selector.obj) : Prop :=
  Forall (fun k => In k Selector.allCommonSymbols) (Selector.obj_keys o).

(** [derive], one catalog symbol after the other. *)
Definition derive_over (symbolsArray catalog : list jsstring) (acc : Selector.obj) : Selector.obj :=
  fold_left (fun o symbol => Selector.obj_set symbol (includes symbolsArray symbol) o)
            catalog acc.

(** The text and the checkbox map agree: a catalog symbol is checked exactly
    when it is a token of the text, and the map has no other keys. *)
Definition synced (w : Selector.Widget) : Prop :=
  (forall s, In s Selector.allCommonSymbols ->
     (Selector.obj_truthy (Selector.selectedSymbols w) s = true
      <-> In s (tokens (Selector.value w))))
  /\ keys_in_catalog (Selector.selectedSymbols w).

(** The widget renders a tile, and so offers a toggle, for catalog symbols
    only. *)
Definition offered (e : Selector.Edit) : Prop :=
  match e with
  | Selector.Toggle symbol => In symbol Selector.allCommonSymbols
  | _ => True
  end.

(** Whether the closure's [monitorStatus.active] is truthy. *)
Definition monitor_active `{JsEngine} (r : AppState) : bool :=
  match get_prop (monitorStatus r) (js "active") with
  | Value v => truthy v
  | _ => false
  end.

(** A sub-request succeeds when [fetch] resolves and the body parses; its
    decoded body then. *)
Definition succeeded `{JsEngine} (q : fetch_result) : option json :=
  match q with
  | Responded r =>
      match body r with
      | inr data => Some data
      | inl _ => None
      end
  | NetworkError _ => None
  end.

(** An engine to run examples on: its numbers are the natural numbers,
    printed and parsed in decimal. *)
Fixpoint parse_digits (acc : N) (s : jsstring) : N :=
  match s with
  | c :: s' =>
      if (48 <=? c) && (c <=? 57) then parse_digits (10 * acc + (c - 48)) s'
      else acc
  | [] => acc
  end.

Definition example_engine : JsEngine := {|
  num := N;
  num_truthy := fun n => negb (n =? 0);
  num_to_string := decimal;
  parseFloat := parse_digits 0;
  null_property_message := fun k => js "Cannot read properties of null (reading '" ++ k ++ js "')";
  uri_malformed_message := js "URI malformed";
  cannot_convert_message := js "Cannot convert object to primitive value"
|}.

(** The first render of [App] on that engine, with a risk of 1 per cent. *)
Definition example_state : @AppState example_engine :=
  @initialState example_engine 1 100000.

Definition example_world : @World example_engine :=
  @mkWorld example_engine example_state [] [].

(** A backend that answers every request with the same result. *)
Definition always (q : @fetch_result example_engine)
  : list (@request example_engine) -> @request example_engine
    -> @fetch_result example_engine :=
  fun _ _ => q.

(** * Properties *)

(** ** Strings: comparison, trimming, splitting and joining *)

Example split_comma_literals :
  split_comma (js "") = [[]]
  /\ split_comma (js "a,,b,") = [js "a"; []; js "b"; []].
Proof. split; reflexivity. Qed.

Example trim_literals :
  trim (js "  EUR USD ") = js "EUR USD"
  /\ trim [9; 160; 69; 8232; 10] = [69]
  /\ trim (js "   ") = [].
Proof. repeat split; reflexivity. Qed.

Example join_comma_literals :
  join_comma [] = []
  /\ join_comma [js "a"] = js "a"
  /\ join_comma [js "a"; []; js "b"] = js "a,,b".
Proof. repeat split; reflexivity. Qed.

Example tokens_literal :
  tokens (js " EURUSD , ,GBPUSD,") = [js "EURUSD"; js "GBPUSD"].
Proof. reflexivity. Qed.

Lemma str_eqb_eq (a b : jsstring) : str_eqb a b = true <-> a = b.
Proof.
  revert b. induction a as [|x a IH]; intros [|y b]; simpl; try (split; congruence).
  rewrite andb_true_iff, N.eqb_eq, IH. split.
  - intros [-> ->]. reflexivity.
  - intros E. injection E as -> ->. split; reflexivity.
Qed.

Lemma str_eqb_refl (a : jsstring) : str_eqb a a = true.
Proof. apply str_eqb_eq. reflexivity. Qed.

Lemma str_eqb_neq (a b : jsstring) : str_eqb a b = false <-> a <> b.
Proof.
  rewrite <- str_eqb_eq. destruct (str_eqb a b); split; congruence.
Qed.

Lemma includes_In (l : list jsstring) (s : jsstring) :
  includes l s = true <-> In s l.
Proof.
  induction l as [|x l IH]; simpl.
  - split; [discriminate | contradiction].
  - rewrite orb_true_iff, str_eqb_eq, IH. reflexivity.
Qed.

Lemma includes_app (l1 l2 : list jsstring) (s : jsstring) :
  includes (l1 ++ l2) s = includes l1 s || includes l2 s.
Proof.
  induction l1 as [|x l1 IH]; simpl; [reflexivity|].
  rewrite IH, orb_assoc. reflexivity.
Qed.

Lemma includes_ext (l1 l2 : list jsstring) (s : jsstring) :
  (In s l1 <-> In s l2) -> includes l1 s = includes l2 s.
Proof.
  intros E. apply eq_true_iff_eq. rewrite !includes_In. exact E.
Qed.

Lemma drop_ws_suffix (s : jsstring) :
  exists p, s = p ++ drop_ws s /\ Forall (fun c => is_ws c = true) p.
Proof.
  induction s as [|c s (p & E & F)]; simpl.
  - exists []. split; [reflexivity | constructor].
  - destruct (is_ws c) eqn:W.
    + exists (c :: p). split; [simpl; congruence | constructor; assumption].
    + exists []. split; [reflexivity | constructor].
Qed.

Lemma drop_ws_head (s : jsstring) (c : N) (t : jsstring) :
  drop_ws s = c :: t -> is_ws c = false.
Proof.
  induction s as [|d s IH]; simpl; [discriminate|].
  destruct (is_ws d) eqn:W; [assumption|].
  intros E. injection E as -> _. exact W.
Qed.

Lemma drop_ws_fixed (s : jsstring) :
  match s with [] => True | c :: _ => is_ws c = false end -> drop_ws s = s.
Proof. destruct s as [|c s]; simpl; [reflexivity|]. intros ->. reflexivity. Qed.

Lemma drop_ws_idem (s : jsstring) : drop_ws (drop_ws s) = drop_ws s.
Proof.
  apply drop_ws_fixed. destruct (drop_ws s) as [|c t] eqn:E; [exact I|].
  exact (drop_ws_head _ _ _ E).
Qed.

Lemma trim_of_trimmed (s : jsstring) : trimmed s -> trim s = s.
Proof.
  intros [E1 E2]. unfold trim. rewrite E1, E2. apply rev_involutive.
Qed.

Lemma trim_trimmed (s : jsstring) : trimmed (trim s).
Proof.
  unfold trimmed, trim. rewrite rev_involutive, drop_ws_idem. split; [|reflexivity].
  destruct (drop_ws_suffix (rev (drop_ws s))) as (p & E & _).
  apply drop_ws_fixed.
  destruct (rev (drop_ws (rev (drop_ws s)))) as [|c t] eqn:R; [exact I|].
  apply (f_equal (@rev N)) in E.
  rewrite rev_involutive, rev_app_distr, R in E. simpl in E.
  exact (drop_ws_head _ _ _ E).
Qed.

Lemma trim_idem (s : jsstring) : trim (trim s) = trim s.
Proof. apply trim_of_trimmed, trim_trimmed. Qed.

Lemma drop_ws_comma_free (s : jsstring) : comma_free s -> comma_free (drop_ws s).
Proof.
  unfold comma_free. intros Hs Hin. apply Hs.
  destruct (drop_ws_suffix s) as (p & E & _). rewrite E.
  apply in_or_app. right. exact Hin.
Qed.

Lemma rev_comma_free (s : jsstring) : comma_free s -> comma_free (rev s).
Proof. unfold comma_free. intros Hs Hin. apply Hs, in_rev. exact Hin. Qed.

Lemma trim_comma_free (s : jsstring) : comma_free s -> comma_free (trim s).
Proof.
  intros Hs. unfold trim.
  apply rev_comma_free, drop_ws_comma_free, rev_comma_free, drop_ws_comma_free, Hs.
Qed.

Lemma split_comma_not_nil (s : jsstring) : split_comma s <> [].
Proof.
  induction s as [|c s IH]; simpl; [discriminate|].
  destruct (c =? comma); [discriminate|].
  destruct (split_comma s); discriminate.
Qed.

Lemma split_comma_pieces (s : jsstring) : Forall comma_free (split_comma s).
Proof.
  induction s as [|c s IH]; simpl.
  - constructor; [intros [] | constructor].
  - destruct (c =? comma) eqn:C.
    + constructor; [intros [] | exact IH].
    + destruct (split_comma s) as [|t ts].
      * constructor; [|constructor].
        intros [E|[]]. apply N.eqb_neq in C. congruence.
      * inversion IH as [|? ? Ht Hts]; subst. constructor; [|exact Hts].
        intros [E|Hin]; [apply N.eqb_neq in C; congruence | exact (Ht Hin)].
Qed.

Lemma split_comma_piece (x : jsstring) : comma_free x -> split_comma x = [x].
Proof.
  induction x as [|c x IH]; intros Hx; simpl; [reflexivity|].
  destruct (c =? comma) eqn:C.
  - apply N.eqb_eq in C. exfalso. apply Hx. left. exact C.
  - rewrite IH; [reflexivity|]. intros Hin. apply Hx. right. exact Hin.
Qed.

Lemma split_comma_cons (x s : jsstring) :
  comma_free x -> split_comma (x ++ comma :: s) = x :: split_comma s.
Proof.
  induction x as [|c x IH]; intros Hx; simpl.
  - reflexivity.
  - destruct (c =? comma) eqn:C.
    + apply N.eqb_eq in C. exfalso. apply Hx. left. exact C.
    + rewrite IH; [reflexivity|]. intros Hin. apply Hx. right. exact Hin.
Qed.

(** Splitting undoes joining, for a non-empty array of comma-free strings. *)
Lemma split_join (l : list jsstring) :
  l <> [] -> Forall comma_free l -> split_comma (join_comma l) = l.
Proof.
  induction l as [|x l IH]; intros Hne Hl; [congruence|].
  inversion Hl as [|? ? Hx Hl']; subst.
  destruct l as [|y l].
  - simpl. apply split_comma_piece, Hx.
  - change (join_comma (x :: y :: l)) with (x ++ comma :: join_comma (y :: l)).
    rewrite split_comma_cons by exact Hx.
    rewrite IH; [reflexivity | discriminate | exact Hl'].
Qed.

Lemma join_comma_cons (y : jsstring) (l : list jsstring) :
  l <> [] -> join_comma (y :: l) = y ++ comma :: join_comma l.
Proof. destruct l; [congruence | reflexivity]. Qed.

(** Joining an array and splitting the text again gives the pieces of every
    element, in order. *)
Lemma split_join_app (l : list jsstring) (x : jsstring) :
  Forall comma_free l ->
  split_comma (join_comma (l ++ [x])) = l ++ split_comma x.
Proof.
  induction l as [|y l IH]; intros Hl; [reflexivity|].
  inversion Hl as [|? ? Hy Hl']; subst.
  change ((y :: l) ++ [x]) with (y :: (l ++ [x])).
  rewrite join_comma_cons by (destruct l; discriminate).
  rewrite split_comma_cons by exact Hy.
  rewrite IH by exact Hl'. reflexivity.
Qed.

Lemma tokens_are_tokens (text : jsstring) : Forall token (tokens text).
Proof.
  unfold tokens. apply List.Forall_forall. intros t Ht.
  apply filter_In in Ht. destruct Ht as [Hin Hne].
  apply in_map_iff in Hin. destruct Hin as (p & <- & Hp).
  split; [|split].
  - destruct (trim p); [discriminate | discriminate].
  - apply trim_comma_free.
    exact (proj1 (List.Forall_forall _ _) (split_comma_pieces text) p Hp).
  - apply trim_trimmed.
Qed.

Lemma map_trim_tokens (l : list jsstring) :
  Forall token l -> List.filter nonempty (List.map trim l) = l.
Proof.
  induction 1 as [|x l (Hne & _ & Ht) _ IH]; simpl; [reflexivity|].
  rewrite (trim_of_trimmed x Ht), IH.
  destruct x; [congruence | reflexivity].
Qed.

(** Tokenizing a joined array of tokens gives the array back. *)
Lemma tokens_join (l : list jsstring) :
  Forall token l -> tokens (join_comma l) = l.
Proof.
  intros Hl. unfold tokens. destruct l as [|x l]; [reflexivity|].
  rewrite split_join.
  - apply map_trim_tokens, Hl.
  - discriminate.
  - eapply List.Forall_impl; [|exact Hl]. intros a (_ & Ha & _). exact Ha.
Qed.

Lemma filter_andb {A} (f g : A -> bool) (l : list A) :
  List.filter (fun x => f x && g x) l = List.filter g (List.filter f l).
Proof.
  induction l as [|x l IH]; simpl; [reflexivity|].
  destruct (f x); simpl; [|exact IH].
  destruct (g x); simpl; congruence.
Qed.

Lemma filter_all {A} (f : A -> bool) (l : list A) :
  Forall (fun x => f x = true) l -> List.filter f l = l.
Proof.
  induction 1 as [|x l Hx _ IH]; simpl; [reflexivity|]. rewrite Hx, IH. reflexivity.
Qed.

(** Tokenizing a joined array of tokens followed by any string. *)
Lemma tokens_join_app (l : list jsstring) (x : jsstring) :
  Forall token l -> tokens (join_comma (l ++ [x])) = l ++ tokens x.
Proof.
  intros Hl. unfold tokens. rewrite split_join_app.
  - rewrite List.map_app, List.filter_app, map_trim_tokens by exact Hl. reflexivity.
  - eapply List.Forall_impl; [|exact Hl]. intros a (_ & Ha & _). exact Ha.
Qed.

Lemma tokenb_token (s : jsstring) : tokenb s = true -> token s.
Proof.
  unfold tokenb. rewrite !andb_true_iff, negb_true_iff, !str_eqb_eq.
  intros [[[Hne Hc] H1] H2]. split; [|split; [|split; assumption]].
  - destruct s; [discriminate | discriminate].
  - intros Hin. assert (E : existsb (N.eqb comma) s = true).
    { apply existsb_exists. exists comma. split; [exact Hin | apply N.eqb_refl]. }
    congruence.
Qed.

(** ** The symbol selector widget *)

Section SelectorFacts.
Import Selector.
#[local] Arguments allCommonSymbols : simpl never.

Ltac projections :=
  cbn [commit unchanged value selectedSymbols disabled customSymbol
       onChange_call next_selected next_custom negb orb].

Lemma catalog_tokens : Forall token allCommonSymbols.
Proof.
  apply List.Forall_forall. intros s Hs. apply tokenb_token.
  revert s Hs. apply List.Forall_forall.
  repeat constructor.
Qed.

Lemma obj_get_set_eq (k : jsstring) (v : bool) (o : obj) :
  obj_get (obj_set k v o) k = Some v.
Proof.
  induction o as [|[k' v'] o IH]; simpl.
  - rewrite str_eqb_refl. reflexivity.
  - destruct (str_eqb k' k) eqn:E; simpl; rewrite E; [reflexivity | exact IH].
Qed.

Lemma obj_get_set_ne (k k' : jsstring) (v : bool) (o : obj) :
  k <> k' -> obj_get (obj_set k v o) k' = obj_get o k'.
Proof.
  intros Hne. induction o as [|[k0 v0] o IH]; simpl.
  - apply str_eqb_neq in Hne. rewrite Hne. reflexivity.
  - destruct (str_eqb k0 k) eqn:E; simpl.
    + apply str_eqb_eq in E. subst k0.
      apply str_eqb_neq in Hne. rewrite Hne. reflexivity.
    + rewrite IH. reflexivity.
Qed.

Lemma obj_truthy_set_eq (k : jsstring) (v : bool) (o : obj) :
  obj_truthy (obj_set k v o) k = v.
Proof. unfold obj_truthy. rewrite obj_get_set_eq. reflexivity. Qed.

Lemma obj_truthy_set_ne (k k' : jsstring) (v : bool) (o : obj) :
  k <> k' -> obj_truthy (obj_set k v o) k' = obj_truthy o k'.
Proof. intros Hne. unfold obj_truthy. rewrite obj_get_set_ne by exact Hne. reflexivity. Qed.

(** Writing the value a key already has leaves the object as it is. *)
Lemma obj_set_same (k : jsstring) (v : bool) (o : obj) :
  obj_get o k = Some v -> obj_set k v o = o.
Proof.
  induction o as [|[k' v'] o IH]; simpl; [discriminate|].
  destruct (str_eqb k' k); intros E.
  - injection E as ->. reflexivity.
  - rewrite IH by exact E. reflexivity.
Qed.

Lemma obj_keys_set (k k' : jsstring) (v : bool) (o : obj) :
  In k' (obj_keys (obj_set k v o)) <-> k' = k \/ In k' (obj_keys o).
Proof.
  unfold obj_keys. induction o as [|[k0 v0] o IH]; simpl.
  - split; [intros [E|[]]; left; congruence | intros [E|[]]; left; congruence].
  - destruct (str_eqb k0 k) eqn:E; simpl.
    + apply str_eqb_eq in E. subst k0. split; [tauto|].
      intros [->|H]; [left; reflexivity | exact H].
    + rewrite IH. split; [tauto|]. intros [H|H]; tauto.
Qed.

Lemma obj_get_key (o : obj) (k : jsstring) (v : bool) :
  obj_get o k = Some v -> In k (obj_keys o).
Proof.
  unfold obj_keys. induction o as [|[k' v'] o IH]; simpl; [discriminate|].
  destruct (str_eqb k' k) eqn:E.
  - apply str_eqb_eq in E. intros _. left. exact E.
  - intros H. right. exact (IH H).
Qed.

(** The checked symbols are exactly the keys whose checkbox is set. *)
Lemma checked_iff (o : obj) (s : jsstring) :
  In s (List.filter (fun key => obj_truthy o key) (obj_keys o))
  <-> obj_truthy o s = true.
Proof.
  rewrite filter_In. split; [tauto|]. intros Hs. split; [|exact Hs].
  unfold obj_truthy in Hs. destruct (obj_get o s) as [b|] eqn:E; [|discriminate].
  exact (obj_get_key _ _ _ E).
Qed.

Lemma keys_in_catalog_set (k : jsstring) (v : bool) (o : obj) :
  In k allCommonSymbols -> keys_in_catalog o -> keys_in_catalog (obj_set k v o).
Proof.
  unfold keys_in_catalog. rewrite !List.Forall_forall. intros Hk Ho x Hx.
  apply obj_keys_set in Hx. destruct Hx as [->|Hx]; [exact Hk | exact (Ho x Hx)].
Qed.

Lemma derive_over_get (arr cat : list jsstring) (acc : obj) (s : jsstring) :
  obj_get (derive_over arr cat acc) s
  = if includes cat s then Some (includes arr s) else obj_get acc s.
Proof.
  unfold derive_over. revert acc. induction cat as [|c cat IH]; intros acc; simpl.
  - reflexivity.
  - rewrite IH. destruct (includes cat s) eqn:I.
    + rewrite orb_true_r. reflexivity.
    + rewrite orb_false_r. destruct (str_eqb c s) eqn:E.
      * apply str_eqb_eq in E. subst c. apply obj_get_set_eq.
      * apply obj_get_set_ne. apply str_eqb_neq. exact E.
Qed.

Lemma derive_over_keys (arr cat : list jsstring) (acc : obj) (k : jsstring) :
  In k (obj_keys (derive_over arr cat acc)) -> In k cat \/ In k (obj_keys acc).
Proof.
  unfold derive_over. revert acc. induction cat as [|c cat IH]; intros acc; simpl.
  - tauto.
  - intros Hk. apply IH in Hk. destruct Hk as [Hk|Hk]; [tauto|].
    apply obj_keys_set in Hk. destruct Hk as [->|Hk]; tauto.
Qed.

Lemma derive_over_fixed (arr cat : list jsstring) (o : obj) :
  (forall s, In s cat -> obj_get o s = Some (includes arr s)) ->
  derive_over arr cat o = o.
Proof.
  unfold derive_over. induction cat as [|c cat IH]; intros Ho; simpl; [reflexivity|].
  rewrite obj_set_same by (apply Ho; left; reflexivity).
  apply IH. intros s Hs. apply Ho. right. exact Hs.
Qed.

Lemma derive_get (arr : list jsstring) (acc : obj) (s : jsstring) :
  obj_get (derive arr acc) s
  = if includes allCommonSymbols s then Some (includes arr s) else obj_get acc s.
Proof. exact (derive_over_get arr allCommonSymbols acc s). Qed.

Lemma derive_truthy (arr : list jsstring) (acc : obj) (s : jsstring) :
  In s allCommonSymbols -> obj_truthy (derive arr acc) s = includes arr s.
Proof.
  intros Hs. unfold obj_truthy. rewrite derive_get.
  apply includes_In in Hs. rewrite Hs. reflexivity.
Qed.

(** Deriving from an array with the same catalog members changes nothing. *)
Lemma derive_fixed (arr arr' : list jsstring) (acc : obj) :
  (forall s, In s allCommonSymbols -> includes arr' s = includes arr s) ->
  derive arr' (derive arr acc) = derive arr acc.
Proof.
  intros Hsame. apply (derive_over_fixed arr' allCommonSymbols).
  intros s Hs. rewrite derive_get, (Hsame s Hs).
  apply includes_In in Hs. rewrite Hs. reflexivity.
Qed.

Lemma derive_congr (arr arr' : list jsstring) (acc : obj) :
  (forall s, In s allCommonSymbols -> includes arr' s = includes arr s) ->
  derive arr' acc = derive arr acc.
Proof.
  intros Hsame. unfold derive. revert acc.
  assert (G : forall cat, (forall s, In s cat -> In s allCommonSymbols) ->
              forall acc,
                fold_left (fun o symbol => obj_set symbol (includes arr' symbol) o) cat acc
                = fold_left (fun o symbol => obj_set symbol (includes arr symbol) o) cat acc).
  { induction cat as [|c cat IH]; intros Hc acc; simpl; [reflexivity|].
    rewrite (Hsame c) by (apply Hc; left; reflexivity).
    apply IH. intros s Hs. apply Hc. right. exact Hs. }
  apply G. tauto.
Qed.

Lemma keys_in_catalog_derive (arr : list jsstring) (acc : obj) :
  keys_in_catalog acc -> keys_in_catalog (derive arr acc).
Proof.
  unfold keys_in_catalog. rewrite !List.Forall_forall. intros Ha k Hk.
  apply (derive_over_keys arr allCommonSymbols) in Hk.
  destruct Hk as [Hk|Hk]; [exact Hk | exact (Ha k Hk)].
Qed.

Lemma tokens_of_token (x : jsstring) : token x -> tokens x = [x].
Proof. intros Hx. apply (tokens_join [x]). constructor; [exact Hx | constructor]. Qed.

Lemma custom_symbols_filter (text : jsstring) :
  List.filter (fun s => nonempty s && negb (includes allCommonSymbols s))
              (List.map trim (split_comma text))
  = List.filter (fun s => negb (includes allCommonSymbols s)) (tokens text).
Proof. apply filter_andb. Qed.

Lemma custom_iff (text s : jsstring) :
  In s (List.filter (fun s => negb (includes allCommonSymbols s)) (tokens text))
  <-> In s (tokens text) /\ ~ In s allCommonSymbols.
Proof.
  rewrite filter_In, negb_true_iff, <- (includes_In allCommonSymbols).
  destruct (includes allCommonSymbols s); split; intros [? ?]; split;
    congruence || assumption.
Qed.

(** What a toggle emits splits back into the checked symbols followed by the
    custom tokens. *)
Lemma emitted_tokens (text : jsstring) (o : obj) :
  keys_in_catalog o ->
  tokens (join_comma
            (List.filter (fun key => obj_truthy o key) (obj_keys o)
             ++ List.filter (fun s => negb (includes allCommonSymbols s)) (tokens text)))
  = List.filter (fun key => obj_truthy o key) (obj_keys o)
    ++ List.filter (fun s => negb (includes allCommonSymbols s)) (tokens text).
Proof.
  intros Ho. apply tokens_join. apply Forall_app. split.
  - apply List.Forall_forall. intros s Hs. apply filter_In in Hs.
    destruct Hs as [Hs _].
    apply (proj1 (List.Forall_forall _ _) catalog_tokens).
    exact (proj1 (List.Forall_forall _ _) Ho s Hs).
  - apply List.Forall_forall. intros s Hs. apply filter_In in Hs.
    destruct Hs as [Hs _].
    exact (proj1 (List.Forall_forall _ _) (tokens_are_tokens text) s Hs).
Qed.

(** C3: the text a checkbox toggle emits is the checked catalog symbols, in
    the order of the map's keys, followed by the tokens of the current text
    that are not catalog symbols, in their order in the text; tokenizing the
    emitted text gives exactly that list back, so no custom token is lost. *)
Theorem toggle_emits_checked_then_custom (w : Widget) (symbol : jsstring) :
  disabled w = false ->
  In symbol allCommonSymbols ->
  keys_in_catalog (selectedSymbols w) ->
  let newSelected := next_selected (handleSymbolToggle w symbol) in
  let checked :=
    List.filter (fun key => obj_truthy newSelected key) (obj_keys newSelected) in
  let custom :=
    List.filter (fun s => negb (includes allCommonSymbols s)) (tokens (value w)) in
  newSelected
    = obj_set symbol (negb (obj_truthy (selectedSymbols w) symbol)) (selectedSymbols w)
  /\ onChange_call (handleSymbolToggle w symbol) = Some (join_comma (checked ++ custom))
  /\ tokens (join_comma (checked ++ custom)) = checked ++ custom
  /\ (forall s, In s checked
                <-> In s allCommonSymbols /\ obj_truthy newSelected s = true)
  /\ (forall s, In s custom <-> In s (tokens (value w)) /\ ~ In s allCommonSymbols).
Proof.
  intros Hd Hsym Hkeys. unfold handleSymbolToggle. rewrite Hd. cbn zeta. simpl.
  set (o := obj_set symbol (negb (obj_truthy (selectedSymbols w) symbol))
                    (selectedSymbols w)).
  assert (Ho : keys_in_catalog o) by (apply keys_in_catalog_set; assumption).
  split; [reflexivity|]. split; [|split; [|split]].
  - unfold updateSymbolInput. rewrite custom_symbols_filter. reflexivity.
  - apply emitted_tokens, Ho.
  - intros s. rewrite checked_iff. split; [|tauto]. intros Hs. split; [|exact Hs].
    apply checked_iff in Hs. apply filter_In in Hs. destruct Hs as [Hs _].
    exact (proj1 (List.Forall_forall _ _) Ho s Hs).
  - intros s. apply custom_iff.
Qed.

(** The example of the specification: the text "EURUSD, GBPUSD, FOO" checks
    EURUSD and GBPUSD, and toggling AUDUSD on emits
    "EURUSD,GBPUSD,AUDUSD,FOO". *)
Lemma toggle_emits_checked_then_custom_example :
  let text := js "EURUSD, GBPUSD, FOO" in
  let w := mkWidget text false (initialSelected text) [] in
  disabled w = false
  /\ In (js "AUDUSD") allCommonSymbols
  /\ keys_in_catalog (selectedSymbols w)
  /\ List.filter (fun key => obj_truthy (selectedSymbols w) key) allCommonSymbols
     = [js "EURUSD"; js "GBPUSD"]
  /\ onChange_call (handleSymbolToggle w (js "AUDUSD"))
     = Some (js "EURUSD,GBPUSD,AUDUSD,FOO")
  /\ tokens (js "EURUSD,GBPUSD,AUDUSD,FOO")
     = [js "EURUSD"; js "GBPUSD"; js "AUDUSD"; js "FOO"].
Proof.
  intros text w.
  assert (Hd : disabled w = false) by reflexivity.
  assert (Hs : In (js "AUDUSD") allCommonSymbols)
    by (apply includes_In; vm_compute; reflexivity).
  assert (Hk : keys_in_catalog (selectedSymbols w))
    by (apply keys_in_catalog_derive; constructor).
  destruct (toggle_emits_checked_then_custom w (js "AUDUSD") Hd Hs Hk)
    as (_ & Hcall & Htok & _).
  split; [exact Hd|]. split; [exact Hs|]. split; [exact Hk|].
  split; [vm_compute; reflexivity|].
  split; [rewrite Hcall; vm_compute; reflexivity|].
  vm_compute. reflexivity.
Defined.

(** C7: adding a custom symbol calls [onChange] only when the symbol is not
    already a token of the text (compared exactly, case-sensitively), with
    the tokens of the text followed by the symbol; when it is already a
    token the text and its token list stay as they are; and a catalog symbol
    gets its checkbox set, the other checkboxes keeping their value. *)
Theorem add_custom_appends_once (w : Widget) :
  let out := handleAddCustomSymbol w in
  let symbols := tokens (value w) in
  (In (customSymbol w) symbols ->
     onChange_call out = None
     /\ value (commit w out) = value w
     /\ tokens (value (commit w out)) = symbols)
  /\ (forall text', onChange_call out = Some text' ->
        ~ In (customSymbol w) symbols
        /\ text' = join_comma (symbols ++ [customSymbol w])
        /\ tokens text' = symbols ++ tokens (customSymbol w))
  /\ (disabled w = false -> customSymbol w <> [] ->
      ~ In (customSymbol w) symbols ->
        onChange_call out = Some (join_comma (symbols ++ [customSymbol w])))
  /\ (disabled w = false -> In (customSymbol w) allCommonSymbols ->
        obj_truthy (next_selected out) (customSymbol w) = true
        /\ forall s, s <> customSymbol w ->
             obj_truthy (next_selected out) s = obj_truthy (selectedSymbols w) s).
Proof.
  cbn zeta. unfold handleAddCustomSymbol.
  destruct (includes (tokens (value w)) (customSymbol w)) eqn:Inc.
  - (* already a token *)
    assert (Hin : In (customSymbol w) (tokens (value w))) by (apply includes_In, Inc).
    split; [|split; [|split]].
    + intros _. destruct (negb (nonempty (customSymbol w)) || disabled w); simpl; auto.
    + intros text'. destruct (negb (nonempty (customSymbol w)) || disabled w); simpl;
        discriminate.
    + intros _ _ Hnot. contradiction.
    + intros Hd Hcat. rewrite Hd, orb_false_r.
      assert (Hne : nonempty (customSymbol w) = true).
      { destruct (customSymbol w) eqn:E; [|reflexivity].
        exfalso. pose proof (proj1 (List.Forall_forall _ _) catalog_tokens _ Hcat) as (Hn & _).
        congruence. }
      rewrite Hne. cbn. apply includes_In in Hcat. rewrite Hcat. split.
      * apply obj_truthy_set_eq.
      * intros s Hs. apply obj_truthy_set_ne. congruence.
  - (* not yet a token *)
    assert (Hnot : ~ In (customSymbol w) (tokens (value w))).
    { intros Hin. apply includes_In in Hin. congruence. }
    split; [|split; [|split]].
    + intros Hin. contradiction.
    + intros text'. destruct (negb (nonempty (customSymbol w)) || disabled w); simpl;
        [discriminate|].
      intros E. injection E as <-. split; [exact Hnot|]. split; [reflexivity|].
      apply tokens_join_app, tokens_are_tokens.
    + intros Hd Hne _. rewrite Hd, orb_false_r.
      destruct (customSymbol w); [congruence | reflexivity].
    + intros Hd Hcat. rewrite Hd, orb_false_r.
      assert (Hne : nonempty (customSymbol w) = true).
      { destruct (customSymbol w) eqn:E; [|reflexivity].
        exfalso. pose proof (proj1 (List.Forall_forall _ _) catalog_tokens _ Hcat) as (Hn & _).
        congruence. }
      rewrite Hne. cbn. apply includes_In in Hcat. rewrite Hcat. split.
      * apply obj_truthy_set_eq.
      * intros s Hs. apply obj_truthy_set_ne. congruence.
Qed.

(** Adding GBPUSD to "EURUSD, GBPUSD" emits nothing and checks GBPUSD; adding
    FOO to it emits "EURUSD,GBPUSD,FOO". *)
Lemma add_custom_appends_once_example :
  let text := js "EURUSD, GBPUSD" in
  let w1 := mkWidget text false [] (js "GBPUSD") in
  let w2 := mkWidget text false [] (js "FOO") in
  (onChange_call (handleAddCustomSymbol w1) = None
   /\ obj_truthy (next_selected (handleAddCustomSymbol w1)) (js "GBPUSD") = true)
  /\ onChange_call (handleAddCustomSymbol w2) = Some (js "EURUSD,GBPUSD,FOO").
Proof.
  intros text w1 w2.
  destruct (add_custom_appends_once w1) as (H1 & _ & _ & H4).
  destruct (add_custom_appends_once w2) as (_ & _ & H3 & _).
  split; [split|].
  - apply H1. apply includes_In. vm_compute. reflexivity.
  - apply H4; [reflexivity | apply includes_In; vm_compute; reflexivity].
  - rewrite H3.
    + vm_compute. reflexivity.
    + reflexivity.
    + discriminate.
    + intros Hin. apply includes_In in Hin. vm_compute in Hin. discriminate.
Defined.

(** After re-emitting the text from a checkbox map, a catalog symbol is a
    token of the new text exactly when its checkbox is set. *)
Lemma emitted_membership (w : Widget) (o : obj) (s : jsstring) :
  keys_in_catalog o -> In s allCommonSymbols ->
  includes (tokens (updateSymbolInput w o)) s = obj_truthy o s.
Proof.
  intros Ho Hs. unfold updateSymbolInput.
  rewrite custom_symbols_filter, emitted_tokens by exact Ho.
  apply eq_true_iff_eq. rewrite includes_In, in_app_iff, checked_iff, custom_iff.
  tauto.
Qed.

(** C8: deriving the checkbox map from a text is idempotent.  The derived
    map marks a catalog symbol exactly when it is a token of the text;
    deriving again from the same text changes nothing; and re-emitting the
    text from the derived map and deriving from that text gives the same
    map, both for the map built at mount and for the one a direct edit
    builds over the previous map. *)
Theorem derive_idempotent (w : Widget) (text : jsstring) :
  let m := next_selected (handleDirectInputChange w text) in
  let w1 := commit w (handleDirectInputChange w text) in
  let m0 := initialSelected text in
  let w0 := mkWidget text (disabled w) m0 (customSymbol w) in
  (forall s, In s allCommonSymbols ->
     (obj_truthy m s = true <-> In s (tokens text))
     /\ (obj_truthy m0 s = true <-> In s (tokens text)))
  /\ next_selected (handleDirectInputChange w1 text) = m
  /\ next_selected (handleDirectInputChange w0 text) = m0
  /\ initialSelected (updateSymbolInput w0 m0) = m0
  /\ next_selected (handleDirectInputChange w0 (updateSymbolInput w0 m0)) = m0
  /\ (keys_in_catalog (selectedSymbols w) ->
      next_selected (handleDirectInputChange w1 (updateSymbolInput w1 m)) = m).
Proof.
  cbn zeta. unfold handleDirectInputChange, initialSelected. projections.
  assert (H0 : keys_in_catalog (derive (tokens text) []))
    by (apply keys_in_catalog_derive; constructor).
  split; [|split; [|split; [|split; [|split]]]].
  - intros s Hs. rewrite !derive_truthy by exact Hs. rewrite includes_In. tauto.
  - apply derive_fixed. reflexivity.
  - apply derive_fixed. reflexivity.
  - apply derive_congr. intros s Hs.
    rewrite emitted_membership by assumption. apply derive_truthy, Hs.
  - apply derive_fixed. intros s Hs.
    rewrite emitted_membership by assumption. apply derive_truthy, Hs.
  - intros Hk. apply derive_fixed. intros s Hs.
    rewrite emitted_membership by (try apply keys_in_catalog_derive; assumption).
    apply derive_truthy, Hs.
Qed.

(** On "EURUSD, GBPUSD, FOO" with an empty previous map: the derived map
    re-emits "EURUSD,GBPUSD,FOO", from which the same map is derived. *)
Lemma derive_idempotent_example :
  let text := js "EURUSD, GBPUSD, FOO" in
  let w := mkWidget [] false [] [] in
  let m := next_selected (handleDirectInputChange w text) in
  let w1 := commit w (handleDirectInputChange w text) in
  keys_in_catalog (selectedSymbols w)
  /\ updateSymbolInput w1 m = js "EURUSD,GBPUSD,FOO"
  /\ next_selected (handleDirectInputChange w1 (updateSymbolInput w1 m)) = m.
Proof.
  intros text w m w1.
  assert (Hk : keys_in_catalog (selectedSymbols w)) by constructor.
  split; [exact Hk|]. split; [vm_compute; reflexivity|].
  destruct (derive_idempotent w text) as (_ & _ & _ & _ & _ & H).
  exact (H Hk).
Defined.

Lemma synced_initial (text : jsstring) (d : bool) (c : jsstring) :
  synced (mkWidget text d (initialSelected text) c).
Proof.
  split; cbn.
  - intros s Hs. unfold initialSelected. rewrite derive_truthy by exact Hs.
    apply includes_In.
  - apply keys_in_catalog_derive. constructor.
Qed.

Lemma toggle_synced (w : Widget) (symbol : jsstring) :
  synced w -> In symbol allCommonSymbols -> synced (step w (Toggle symbol)).
Proof.
  intros Hw Hsym. unfold step, handle, handleSymbolToggle.
  destruct (disabled w) eqn:Hd; [exact Hw|].
  destruct Hw as [_ Hk].
  set (o := obj_set symbol _ (selectedSymbols w)).
  assert (Ho : keys_in_catalog o) by (apply keys_in_catalog_set; assumption).
  split; projections; [|exact Ho].
  intros s Hs. rewrite <- includes_In, emitted_membership by assumption. tauto.
Qed.

Lemma direct_input_synced (w : Widget) (text : jsstring) :
  keys_in_catalog (selectedSymbols w) -> synced (step w (DirectInput text)).
Proof.
  intros Hk. unfold step, handle, handleDirectInputChange. split; projections.
  - intros s Hs. rewrite derive_truthy by exact Hs. apply includes_In.
  - apply keys_in_catalog_derive, Hk.
Qed.

Lemma add_custom_synced (w : Widget) :
  synced w -> comma_free (customSymbol w) -> trimmed (customSymbol w) ->
  synced (step w AddCustom).
Proof.
  intros Hw Hc Ht. unfold step, handle, handleAddCustomSymbol.
  destruct (nonempty (customSymbol w)) eqn:Hne; [|exact Hw].
  destruct (disabled w) eqn:Hd; [exact Hw|].
  assert (Htok : token (customSymbol w)).
  { split; [|split; assumption]. destruct (customSymbol w); discriminate. }
  destruct Hw as [Hagree Hk].
  set (cs := customSymbol w) in *.
  assert (Hsel : forall s, In s allCommonSymbols ->
            obj_truthy (if includes allCommonSymbols cs
                        then obj_set cs true (selectedSymbols w)
                        else selectedSymbols w) s = true
            <-> s = cs \/ In s (tokens (value w))).
  { intros s Hs. destruct (includes allCommonSymbols cs) eqn:Hcat.
    - destruct (str_eqb cs s) eqn:E.
      + apply str_eqb_eq in E. subst s. rewrite obj_truthy_set_eq. tauto.
      + apply str_eqb_neq in E. rewrite obj_truthy_set_ne by exact E.
        rewrite Hagree by exact Hs. split; [tauto|]. intros [->|H]; [congruence|exact H].
    - rewrite Hagree by exact Hs. split; [tauto|].
      intros [->|H]; [|exact H]. apply includes_In in Hs. congruence. }
  split; projections.
  - intros s Hs. rewrite Hsel by exact Hs.
    destruct (includes (tokens (value w)) cs) eqn:Inc; cbn [negb].
    + apply includes_In in Inc. split; [|tauto]. intros [->|H]; assumption.
    + rewrite tokens_join_app by apply tokens_are_tokens.
      rewrite (tokens_of_token cs Htok), in_app_iff. cbn. split.
      * intros [->|H]; [right; left; reflexivity | left; exact H].
      * intros [H|[<-|[]]]; [right; exact H | left; reflexivity].
  - destruct (includes allCommonSymbols cs) eqn:Hcat; [|exact Hk].
    apply keys_in_catalog_set; [apply includes_In, Hcat | exact Hk].
Qed.

(** The edit paths that keep the widget synced: from a synced state, a
    checkbox toggle, a direct text edit, and the addition of a custom symbol
    that has no comma and no white space at either end, each lead to a
    synced state. *)
Lemma edit_keeps_synced (w : Widget) (e : Edit) :
  synced w -> offered e ->
  (e = AddCustom -> comma_free (customSymbol w) /\ trimmed (customSymbol w)) ->
  synced (step w e).
Proof.
  intros Hw He Hadd. destruct e as [symbol|text|].
  - apply toggle_synced; assumption.
  - apply direct_input_synced. exact (proj2 Hw).
  - destruct (Hadd eq_refl) as [Hc Ht]. apply add_custom_synced; assumption.
Qed.

(** Adding the custom symbol FOO to the synced text "EURUSD" keeps the widget
    synced. *)
Lemma edit_keeps_synced_example :
  let w := mkWidget (js "EURUSD") false (initialSelected (js "EURUSD")) (js "FOO") in
  synced w
  /\ offered AddCustom
  /\ comma_free (customSymbol w)
  /\ trimmed (customSymbol w)
  /\ value (step w AddCustom) = js "EURUSD,FOO"
  /\ synced (step w AddCustom).
Proof.
  intros w.
  assert (Hw : synced w) by apply synced_initial.
  destruct (tokenb_token (js "FOO") eq_refl) as (_ & Hc & Ht).
  split; [exact Hw|]. split; [exact I|]. split; [exact Hc|]. split; [exact Ht|].
  split; [vm_compute; reflexivity|].
  apply edit_keeps_synced; [exact Hw | exact I | intros _; split; assumption].
Defined.

(** C2: the invariant that every edit step keeps the text and the checkbox
    map in agreement is broken by [handleAddCustomSymbol], which tests the
    custom symbol against the catalog as typed, untrimmed, while every
    reading of the text trims its tokens.  On the empty, synced widget,
    adding "EURUSD " (trailing space) makes the text "EURUSD ", whose only
    token is EURUSD, while the EURUSD checkbox stays unset. *)
Theorem add_custom_padded_breaks_sync :
  let w := mkWidget [] false (initialSelected []) (js "EURUSD ") in
  synced w
  /\ offered AddCustom
  /\ value (step w AddCustom) = js "EURUSD "
  /\ tokens (value (step w AddCustom)) = [js "EURUSD"]
  /\ obj_truthy (selectedSymbols (step w AddCustom)) (js "EURUSD") = false
  /\ ~ synced (step w AddCustom).
Proof.
  intros w.
  assert (Hv : value (step w AddCustom) = js "EURUSD ") by (vm_compute; reflexivity).
  assert (Ht : tokens (value (step w AddCustom)) = [js "EURUSD"])
    by (vm_compute; reflexivity).
  assert (Hc : obj_truthy (selectedSymbols (step w AddCustom)) (js "EURUSD") = false)
    by (vm_compute; reflexivity).
  split; [apply synced_initial|]. split; [exact I|].
  split; [exact Hv|]. split; [exact Ht|]. split; [exact Hc|].
  intros [Hagree _].
  assert (Hcat : In (js "EURUSD") allCommonSymbols)
    by (apply includes_In; vm_compute; reflexivity).
  assert (Hin : In (js "EURUSD") (tokens (value (step w AddCustom))))
    by (rewrite Ht; left; reflexivity).
  apply (Hagree _ Hcat) in Hin. congruence.
Qed.

End SelectorFacts.

(** ** The dashboard controller *)

Section ControllerFacts.
Context `{JsEngine}.
Variable net : list request -> request -> fetch_result.

#[local] Arguments js : simpl never.
#[local] Arguments get_prop : simpl never.

Ltac run :=
  unfold fetchHealthStatus, fetchMonitorStatus, fetchSignals, startMonitoring,
    stopMonitoring, fetchSymbolDetails, refreshData, finally, try_catch, bind,
    fetch, json_body, read_prop, ToString, promise_all4, encodeURIComponent_check,
    setMonitorStatus, setSignals, setHealthStatus, setSymbolDetails,
    setSelectedSymbol, setIsLoading, setError, setActiveView, update,
    console_error, ret, throw.

(** C9: whatever its status, a monitor-status response whose body parses
    replaces [monitorStatus] by the decoded body and touches nothing else;
    a transport failure or a body that does not parse leaves the whole state,
    the error banner included, as it was and logs to the console.  Either
    way one request is issued and the call settles fulfilled. *)
Theorem fetchMonitorStatus_replaces_state (w : World) :
  (forall code data,
     net (requests w) GetMonitorStatus = Responded (mkResponse code (inr data)) ->
     fetchMonitorStatus net w
     = (mkWorld (with_monitorStatus data (st w))
                (requests w ++ [GetMonitorStatus]) (console w), inr tt)
     /\ monitorStatus (st (fst (fetchMonitorStatus net w))) = data
     /\ error (st (fst (fetchMonitorStatus net w))) = error (st w))
  /\ (succeeded (net (requests w) GetMonitorStatus) = None ->
      fetchMonitorStatus net w
      = (mkWorld (st w) (requests w ++ [GetMonitorStatus])
                 (console w ++ [js "Error fetching monitor status:"]), inr tt))
  /\ (st (fst (fetchMonitorStatus net w)) <> st w ->
      exists data, succeeded (net (requests w) GetMonitorStatus) = Some data).
Proof.
  split; [|split].
  - intros code data E. run. rewrite E. cbn. auto.
  - run. destruct (net (requests w) GetMonitorStatus) as [m|[code [e|data]]]; cbn;
      [reflexivity | reflexivity | discriminate].
  - run. destruct (net (requests w) GetMonitorStatus) as [m|[code [e|data]]]; cbn;
      [congruence | congruence | eauto].
Qed.

Lemma bind_fulfilled {A B} (m : Async A) (k : A -> Async B) (w w' : World) (a : A) :
  m w = (w', inr a) -> bind m k w = k a w'.
Proof. intros E. unfold bind. rewrite E. reflexivity. Qed.

Lemma bind_rejected {A B} (m : Async A) (k : A -> Async B) (w w' : World) (e : exn) :
  m w = (w', inl e) -> bind m k w = (w', inl e).
Proof. intros E. unfold bind. rewrite E. reflexivity. Qed.






(** C5: when the health request fails at the network or CORS level, the
    descriptive CORS message is set and the health state becomes
    [{status: 'error', mt5_status: 'Unknown'}]; when it is answered with a
    success status and a body that parses, the health state becomes that
    body and the error is cleared. *)
Theorem fetchHealthStatus_outcomes (w : World) :
  (forall message,
     net (requests w) GetHealth = NetworkError message ->
     let w' := fst (fetchHealthStatus net w) in
     snd (fetchHealthStatus net w) = inr tt
     /\ error (st w')
        = Some (js "CORS Error: Cannot connect to API server. Make sure the API server is running and has CORS enabled.")
     /\ healthStatus (st w')
        = JObj [(js "status", JStr (js "error"));
                (js "mt5_status", JStr (js "Unknown"))])
  /\ (forall resp data,
        net (requests w) GetHealth = Responded resp ->
        ok resp = true -> body resp = inr data ->
        fetchHealthStatus net w
        = (mkWorld (with_error None (with_healthStatus data (st w)))
                   (requests w ++ [GetHealth]) (console w), inr tt)
        /\ healthStatus (st (fst (fetchHealthStatus net w))) = data
        /\ error (st (fst (fetchHealthStatus net w))) = None).
Proof.
  split.
  - intros message E. run. rewrite E. cbn [TypeError exn_name exn_message].
    rewrite str_eqb_refl, orb_true_r. cbn. auto.
  - intros resp data E Hok Hbody. run. rewrite E, Hok, Hbody. cbn. auto.
Qed.

Ltac leaf :=
  cbn;
  (split; [reflexivity|]); (split; [reflexivity|]);
  (split;
   [ intros c' l' a' p' Hwf H1 H2 H3 H4;
     first [ discriminate Hwf | discriminate H1 | discriminate H2
           | discriminate H3 | discriminate H4
           | injection H1 as <-; injection H2 as <-;
             injection H3 as <-; injection H4 as <-;
             rewrite lookup_insert_eq, <- !app_assoc; cbn; auto 10 ]
   | ]);
  (split;
   [ intros [F|[F|[F|F]]]; first [ discriminate F | auto ] | ]);
  first [ intros Hneq; exfalso; apply Hneq; reflexivity
        | intros _; eauto 10 ].

(** C1: [fetchSymbolDetails] always settles fulfilled with the loading flag
    off.  When the four sub-requests all succeed, the entry of the symbol
    becomes the four decoded bodies, the symbol is selected, the detail view
    is shown and the error is cleared.  When any of them rejects, the
    exception is caught: the cache is left as it was, entry of the symbol
    included, and the error is 'Failed to fetch details for <symbol>'.  So
    the cache changes only when all four have succeeded. *)
Theorem fetchSymbolDetails_all_or_nothing (r : AppState) (symbol : jsstring) (w : World) :
  let analyze :=
    PostAnalyze symbol (to_string (riskPercentage r)) (to_string (accountSize r)) in
  let q1 := net (requests w) (PostChart symbol) in
  let q2 := net (requests w ++ [PostChart symbol]) (PostLevels symbol) in
  let q3 := net (requests w ++ [PostChart symbol; PostLevels symbol]) analyze in
  let q4 := net (requests w ++ [PostChart symbol; PostLevels symbol; analyze])
                (PostPrice symbol) in
  let w' := fst (fetchSymbolDetails net r symbol w) in
  snd (fetchSymbolDetails net r symbol w) = inr tt
  /\ isLoading (st w') = false
  /\ (forall c l a p,
        well_formed_utf16 symbol = true ->
        succeeded q1 = Some c -> succeeded q2 = Some l ->
        succeeded q3 = Some a -> succeeded q4 = Some p ->
        symbolDetails (st w') = <[symbol := mkDetail c l a p]> (symbolDetails r)
        /\ symbolDetails (st w') !! symbol = Some (mkDetail c l a p)
        /\ selectedSymbol (st w') = Some symbol
        /\ activeView (st w') = SymbolDetailView
        /\ error (st w') = None
        /\ requests w'
           = requests w ++ [PostChart symbol; PostLevels symbol; analyze;
                            PostPrice symbol])
  /\ (succeeded q1 = None \/ succeeded q2 = None
      \/ succeeded q3 = None \/ succeeded q4 = None ->
        symbolDetails (st w') = symbolDetails (st w)
        /\ error (st w') = Some (js "Failed to fetch details for " ++ symbol)
        /\ selectedSymbol (st w') = selectedSymbol (st w)
        /\ activeView (st w') = activeView (st w))
  /\ (symbolDetails (st w') <> symbolDetails (st w) ->
        exists c l a p,
          succeeded q1 = Some c /\ succeeded q2 = Some l
          /\ succeeded q3 = Some a /\ succeeded q4 = Some p).
Proof.
  cbv zeta.
  remember (PostAnalyze symbol (to_string (riskPercentage r))
                        (to_string (accountSize r))) as analyze eqn:Ha.
  replace (requests w ++ [PostChart symbol; PostLevels symbol; analyze])
    with (((requests w ++ [PostChart symbol]) ++ [PostLevels symbol]) ++ [analyze])
    by (rewrite <- !app_assoc; reflexivity).
  replace (requests w ++ [PostChart symbol; PostLevels symbol])
    with ((requests w ++ [PostChart symbol]) ++ [PostLevels symbol])
    by (rewrite <- !app_assoc; reflexivity).
  run. rewrite <- Ha. clear Ha.
  destruct (well_formed_utf16 symbol); cbn; [|leaf].
  destruct (net (requests w) (PostChart symbol)) as [m1|[s1 [e1|c]]];
    cbn; [leaf| |];
  (destruct (net (requests w ++ [PostChart symbol]) (PostLevels symbol))
     as [m2|[s2 [e2|l]]]; cbn; [leaf| |]);
  (destruct (net ((requests w ++ [PostChart symbol]) ++ [PostLevels symbol]) analyze)
     as [m3|[s3 [e3|a]]]; cbn; [leaf| |]);
  (destruct (net (((requests w ++ [PostChart symbol]) ++ [PostLevels symbol])
                    ++ [analyze]) (PostPrice symbol)) as [m4|[s4 [e4|p]]];
    cbn; leaf).
Qed.

(** C4, amended: when the start request is answered with a non-success
    status and a JSON body whose [detail] is a non-empty string, exactly that
    string becomes the error, no further request is issued, and the monitor
    status is untouched; when it is answered with a success status, the
    monitor status is fetched again and the error is cleared.  Either way
    the loading flag ends off. *)
Theorem startMonitoring_surfaces_detail (r : AppState) (w : World) :
  let start :=
    PostStart (List.map trim (split_comma (symbolInput r)))
              (parseFloat (to_string (riskPercentage r)))
              (parseFloat (to_string (accountSize r))) in
  let w' := fst (startMonitoring net r w) in
  (forall resp errorData d,
     net (requests w) start = Responded resp ->
     ok resp = false ->
     body resp = inr errorData ->
     get_prop errorData (js "detail") = Value (JStr d) ->
     d <> [] ->
     snd (startMonitoring net r w) = inr tt
     /\ error (st w') = Some d
     /\ requests w' = requests w ++ [start]
     /\ monitorStatus (st w') = monitorStatus (st w)
     /\ isLoading (st w') = false)
  /\ (forall resp,
        net (requests w) start = Responded resp ->
        ok resp = true ->
        snd (startMonitoring net r w) = inr tt
        /\ error (st w') = None
        /\ requests w' = requests w ++ [start; GetMonitorStatus]
        /\ monitorStatus (st w')
           = match succeeded (net (requests w ++ [start]) GetMonitorStatus) with
             | Some data => data
             | None => monitorStatus (st w)
             end
        /\ isLoading (st w') = false).
Proof.
  cbv zeta.
  remember (PostStart (List.map trim (split_comma (symbolInput r)))
                      (parseFloat (to_string (riskPercentage r)))
                      (parseFloat (to_string (accountSize r)))) as start eqn:Hs.
  split.
  - intros resp errorData d E Hok Hbody Hdetail Hd.
    run. rewrite <- Hs. cbn. rewrite E. cbn. rewrite Hok. cbn.
    rewrite Hbody. cbn. rewrite Hdetail. cbn.
    destruct d as [|x d]; [congruence|]. cbn. auto.
  - intros resp E Hok.
    run. run. rewrite <- Hs. cbn. rewrite E. cbn. rewrite Hok. cbn.
    destruct (net (requests w ++ [start]) GetMonitorStatus) as [m|[code [e|data]]];
      cbn; rewrite <- app_assoc; auto.
Qed.

Lemma split_comma_length (s : jsstring) :
  length (split_comma s) = S (count_occ N.eq_dec s comma).
Proof.
  induction s as [|c s IH]; [reflexivity|]. cbn [split_comma count_occ].
  destruct (N.eqb_spec c comma) as [->|Hne].
  - destruct (N.eq_dec comma comma) as [_|F]; [|congruence].
    cbn. rewrite IH. reflexivity.
  - destruct (N.eq_dec c comma) as [F|_]; [congruence|].
    destruct (split_comma s); cbn in *; congruence.
Qed.

Lemma join_split (s : jsstring) : join_comma (split_comma s) = s.
Proof.
  induction s as [|c s IH]; [reflexivity|]. cbn [split_comma].
  destruct (c =? comma) eqn:C.
  - apply N.eqb_eq in C. subst c.
    rewrite join_comma_cons by apply split_comma_not_nil. rewrite IH. reflexivity.
  - destruct (split_comma s) as [|t ts] eqn:E; [destruct (split_comma_not_nil s E)|].
    rewrite <- IH. destruct ts; reflexivity.
Qed.

Lemma first_not_ws (s : jsstring) :
  drop_ws s = s -> match s with [] => True | c :: _ => is_ws c = false end.
Proof. destruct s as [|c t]; [trivial|]. intros E. exact (drop_ws_head _ _ _ E). Qed.

(** What [trim] removes is white space, at the two ends only. *)
Lemma trim_decompose (s : jsstring) :
  exists before after,
    s = before ++ trim s ++ after
    /\ Forall (fun c => is_ws c = true) before
    /\ Forall (fun c => is_ws c = true) after
    /\ match trim s with [] => True | c :: _ => is_ws c = false end
    /\ match rev (trim s) with [] => True | c :: _ => is_ws c = false end.
Proof.
  destruct (drop_ws_suffix s) as (p & E & Fp).
  destruct (drop_ws_suffix (rev (drop_ws s))) as (q & E2 & Fq).
  exists p, (rev q). split; [|split; [exact Fp|split; [apply Forall_rev, Fq|]]].
  - apply (f_equal (@rev N)) in E2. rewrite rev_involutive, rev_app_distr in E2.
    unfold trim. rewrite <- E2. exact E.
  - destruct (trim_trimmed s) as [T1 T2]. split; apply first_not_ws; assumption.
Qed.

(** C10: the symbols [startMonitoring] posts are the comma-separated pieces
    of the input, none dropped (one more than the number of commas, the
    pieces joined by commas being the input), each with the white space at
    its two ends removed and nothing else.  The widget's tokenization is that
    array without its empty strings.  For 'EURUSD,,GBPUSD,' the request
    carries ['EURUSD', '', 'GBPUSD', ''] while the widget sees EURUSD and
    GBPUSD; for ' EURUSD , ,GBPUSD' it carries ['EURUSD', '', 'GBPUSD']. *)
Theorem startMonitoring_posts_empty_symbols (r : AppState) (w : World) :
  let pieces := split_comma (symbolInput r) in
  let symbols := List.map trim pieces in
  (exists rest,
     requests (fst (startMonitoring net r w))
     = requests w ++ PostStart symbols
                       (parseFloat (to_string (riskPercentage r)))
                       (parseFloat (to_string (accountSize r))) :: rest)
  /\ length symbols = S (count_occ N.eq_dec (symbolInput r) comma)
  /\ join_comma pieces = symbolInput r
  /\ Forall (fun piece => ~ In comma piece) pieces
  /\ Forall2 (fun piece symbol =>
                exists before after,
                  piece = before ++ symbol ++ after
                  /\ Forall (fun c => is_ws c = true) before
                  /\ Forall (fun c => is_ws c = true) after
                  /\ match symbol with [] => True | c :: _ => is_ws c = false end
                  /\ match rev symbol with [] => True | c :: _ => is_ws c = false end)
             pieces symbols
  /\ tokens (symbolInput r) = List.filter nonempty symbols
  /\ List.map trim (split_comma (js "EURUSD,,GBPUSD,"))
     = [js "EURUSD"; []; js "GBPUSD"; []]
  /\ tokens (js "EURUSD,,GBPUSD,") = [js "EURUSD"; js "GBPUSD"]
  /\ List.map trim (split_comma (js " EURUSD , ,GBPUSD"))
     = [js "EURUSD"; []; js "GBPUSD"].
Proof.
  cbv zeta. split; [|split; [|split; [|split; [|split; [|split; [|split; [|split]]]]]]].
  - remember (PostStart (List.map trim (split_comma (symbolInput r)))
                        (parseFloat (to_string (riskPercentage r)))
                        (parseFloat (to_string (accountSize r)))) as start eqn:Hs.
    run. run. rewrite <- Hs. cbn.
    destruct (net (requests w) start) as [m|resp]; cbn; [exists []; reflexivity|].
    destruct (ok resp); cbn.
    + destruct (net (requests w ++ [start]) GetMonitorStatus) as [m|[code [e|data]]];
        cbn; rewrite <- app_assoc; eexists; reflexivity.
    + destruct (body resp) as [e|errorData]; cbn; [exists []; reflexivity|].
      destruct (get_prop errorData _) as [| |v]; cbn;
        [exists []; reflexivity | exists []; reflexivity |].
      destruct (truthy v); cbn; [|exists []; reflexivity].
      destruct (converts v); cbn; exists []; reflexivity.
  - rewrite length_map. apply split_comma_length.
  - apply join_split.
  - apply split_comma_pieces.
  - induction (split_comma (symbolInput r)) as [|piece pieces IH]; cbn;
      constructor; [apply trim_decompose | exact IH].
  - reflexivity.
  - vm_compute. reflexivity.
  - vm_compute. reflexivity.
  - vm_compute. reflexivity.
Qed.

End ControllerFacts.

(** ** The controller on concrete backends *)

Example to_string_literal :
  @to_string example_engine
    (JArr [@JNum example_engine 15; JNull; JObj [];
           JArr [JBool true; JStr (js "x")]])
  = js "15,,[object Object],true,x".
Proof. reflexivity. Qed.

(** A 500 answer to the health check takes the other branch of the
    handler: the message names the status, the health state stays. *)
Example fetchHealthStatus_http_error :
  let net := always (Responded (mkResponse 500 (inr (@JObj example_engine [])))) in
  let w' := fst (fetchHealthStatus net example_world) in
  error (st w') = Some (js "Could not connect to API server: HTTP error! Status: 500")
  /\ healthStatus (st w') = healthStatus example_state
  /\ console w' = [js "Error fetching health status:"].
Proof. repeat split; vm_compute; reflexivity. Qed.

(** A symbol with a lone surrogate is refused by [encodeURIComponent]
    before any request is made. *)
Example fetchSymbolDetails_lone_surrogate :
  let net := always (Responded (mkResponse 200 (inr (@JObj example_engine [])))) in
  let w' := fst (fetchSymbolDetails net example_state [55296] example_world) in
  requests w' = []
  /\ symbolDetails (st w') = symbolDetails example_state
  /\ error (st w') = Some (js "Failed to fetch details for " ++ [55296]).
Proof. repeat split; vm_compute; reflexivity. Qed.

(** A status answer of 500 whose body parses still replaces the state. *)
Lemma fetchMonitorStatus_replaces_state_example :
  let data := @JObj example_engine [(js "active", JBool true)] in
  let net := always (Responded (mkResponse 500 (inr data))) in
  let down := always (NetworkError (js "Failed to fetch")) in
  net (requests example_world) GetMonitorStatus
    = Responded (mkResponse 500 (inr data))
  /\ monitorStatus (st (fst (fetchMonitorStatus net example_world))) = data
  /\ succeeded (down (requests example_world) GetMonitorStatus) = None
  /\ st (fst (fetchMonitorStatus down example_world)) = st example_world.
Proof.
  intros data net down.
  destruct (@fetchMonitorStatus_replaces_state example_engine net example_world)
    as (Hok & _ & _).
  destruct (@fetchMonitorStatus_replaces_state example_engine down example_world)
    as (_ & Hfail & _).
  split; [reflexivity|]. split; [exact (proj1 (proj2 (Hok 500 data eq_refl)))|].
  split; [reflexivity|]. rewrite (Hfail eq_refl). reflexivity.
Defined.


(** A network failure marks the health state as error; a 200 answer
    replaces it and clears the error. *)
Lemma fetchHealthStatus_outcomes_example :
  let down := always (@NetworkError example_engine (js "Failed to fetch")) in
  let data := @JObj example_engine [(js "status", JStr (js "ok"));
                                    (js "mt5_status", JStr (js "Connected"))] in
  let up := always (Responded (mkResponse 200 (inr data))) in
  let failed := mkWorld (with_error (Some (js "stale")) example_state) [] [] in
  healthStatus (st (fst (fetchHealthStatus down example_world)))
    = JObj [(js "status", JStr (js "error")); (js "mt5_status", JStr (js "Unknown"))]
  /\ healthStatus (st (fst (fetchHealthStatus up failed))) = data
  /\ error (st (fst (fetchHealthStatus up failed))) = None.
Proof.
  intros down data up failed.
  destruct (@fetchHealthStatus_outcomes example_engine down example_world) as (Hdown & _).
  destruct (@fetchHealthStatus_outcomes example_engine up failed) as (_ & Hup).
  split; [exact (proj2 (proj2 (Hdown (js "Failed to fetch") eq_refl)))|].
  exact (proj2 (Hup (mkResponse 200 (inr data)) data eq_refl eq_refl eq_refl)).
Defined.

(** Four parsed answers commit the entry of EURUSD; a network failure
    leaves the cache empty and reports the symbol. *)
Lemma fetchSymbolDetails_all_or_nothing_example :
  let data := @JObj example_engine [] in
  let up := always (Responded (mkResponse 200 (inr data))) in
  let down := always (@NetworkError example_engine (js "Failed to fetch")) in
  let symbol := js "EURUSD" in
  symbolDetails (st (fst (fetchSymbolDetails up example_state symbol example_world)))
    !! symbol = Some (mkDetail data data data data)
  /\ symbolDetails (st (fst (fetchSymbolDetails down example_state symbol example_world)))
     = symbolDetails (st example_world)
  /\ error (st (fst (fetchSymbolDetails down example_state symbol example_world)))
     = Some (js "Failed to fetch details for EURUSD").
Proof.
  intros data up down symbol.
  destruct (@fetchSymbolDetails_all_or_nothing example_engine up example_state symbol
              example_world) as (_ & _ & Hup & _).
  destruct (@fetchSymbolDetails_all_or_nothing example_engine down example_state symbol
              example_world) as (_ & _ & _ & Hdown & _).
  split.
  - exact (proj1 (proj2 (Hup data data data data eq_refl eq_refl eq_refl eq_refl eq_refl))).
  - destruct (Hdown (or_introl eq_refl)) as (Hc & He & _). split; [exact Hc | exact He].
Defined.

(** The example of the specification: a 400 answer with
    [{detail: "MT5 not connected"}] surfaces exactly that string, after the
    single start request. *)
Lemma startMonitoring_surfaces_detail_example :
  let errorData := @JObj example_engine [(js "detail", JStr (js "MT5 not connected"))] in
  let resp := mkResponse 400 (inr errorData) in
  let net := always (Responded resp) in
  let w' := fst (startMonitoring net example_state example_world) in
  ok resp = false
  /\ error (st w') = Some (js "MT5 not connected")
  /\ requests w'
     = [@PostStart example_engine
          [js "EURUSD"; js "GBPUSD"; js "USDJPY"; js "XAUUSD"] 1 100000].
Proof.
  intros errorData resp net w'.
  destruct (@startMonitoring_surfaces_detail example_engine net example_state example_world)
    as (Hdetail & _).
  destruct (Hdetail resp errorData (js "MT5 not connected") eq_refl eq_refl eq_refl eq_refl)
    as (_ & He & Hr & _); [discriminate|].
  split; [reflexivity|]. split; [exact He|].
  etransitivity; [exact Hr | vm_compute; reflexivity].
Defined.

(** C4 as stated fails for an empty detail string: a 400 answer with
    [{detail: ""}] surfaces the fallback text, not the backend's string. *)
Lemma startMonitoring_empty_detail_falls_back :
  let errorData := @JObj example_engine [(js "detail", JStr [])] in
  let resp := mkResponse 400 (inr errorData) in
  let net := always (Responded resp) in
  let w' := fst (startMonitoring net example_state example_world) in
  ok resp = false
  /\ body resp = inr errorData
  /\ get_prop errorData (js "detail") = Value (JStr [])
  /\ error (st w') = Some (js "Failed to start monitoring")
  /\ error (st w') <> Some [].
Proof.
  intros errorData resp net w'.
  assert (He : error (st w') = Some (js "Failed to start monitoring"))
    by (vm_compute; reflexivity).
  split; [reflexivity|]. split; [reflexivity|]. split; [reflexivity|].
  split; [exact He|]. rewrite He. discriminate.
Qed.

(** * Further properties of the widget *)

Section SelectorExtras.
Import Selector.
#[local] Arguments allCommonSymbols : simpl never.

Ltac widget_projections :=
  cbn [commit unchanged value selectedSymbols disabled customSymbol
       onChange_call next_selected next_custom negb orb].


Lemma obj_keys_set_value (k : jsstring) (v1 v2 : bool) (o1 o2 : obj) :
  obj_keys o1 = obj_keys o2 ->
  obj_keys (obj_set k v1 o1) = obj_keys (obj_set k v2 o2).
Proof.
  unfold obj_keys. revert o2.
  induction o1 as [|[k1 b1] o1 IH]; intros [|[k2 b2] o2]; cbn;
    try discriminate; [reflexivity|].
  intros E. injection E as -> E.
  destruct (str_eqb k2 k); cbn; [congruence|]. rewrite (IH o2 E). reflexivity.
Qed.

Lemma derive_over_keys_value (arr1 arr2 cat : list jsstring) (o1 o2 : obj) :
  obj_keys o1 = obj_keys o2 ->
  obj_keys (derive_over arr1 cat o1) = obj_keys (derive_over arr2 cat o2).
Proof.
  unfold derive_over. revert o1 o2.
  induction cat as [|c cat IH]; intros o1 o2 E; cbn; [exact E|].
  apply IH, obj_keys_set_value, E.
Qed.

Lemma initialSelected_keys (value0 : jsstring) :
  obj_keys (initialSelected value0) = allCommonSymbols.
Proof.
  unfold initialSelected.
  change (derive (tokens value0) [])
    with (derive_over (tokens value0) allCommonSymbols []).
  rewrite (derive_over_keys_value (tokens value0) [] allCommonSymbols [] [] eq_refl).
  vm_compute. reflexivity.
Qed.

(** X2: the mount effect builds a checkbox map whose keys are the catalog
    symbols, in catalog order, whatever the initial text; a catalog symbol
    is checked exactly when it is a token of that text, and any other key
    reads as unchecked. *)
Theorem initialSelected_keys_and_marks (value0 : jsstring) :
  obj_keys (initialSelected value0) = allCommonSymbols
  /\ (forall s, In s allCommonSymbols ->
        obj_get (initialSelected value0) s = Some (includes (tokens value0) s)
        /\ (obj_truthy (initialSelected value0) s = true <-> In s (tokens value0)))
  /\ (forall s, ~ In s allCommonSymbols ->
        obj_get (initialSelected value0) s = None).
Proof.
  split; [apply initialSelected_keys|]. unfold initialSelected. split.
  - intros s Hs. split.
    + rewrite derive_get. apply includes_In in Hs. rewrite Hs. reflexivity.
    + rewrite derive_truthy by exact Hs. apply includes_In.
  - intros s Hs. rewrite derive_get.
    destruct (includes allCommonSymbols s) eqn:E; [|reflexivity].
    apply includes_In in E. contradiction.
Qed.

Lemma keys_truthy_in_catalog (o : obj) (s : jsstring) :
  keys_in_catalog o -> obj_truthy o s = true -> In s allCommonSymbols.
Proof.
  intros Ho Hs. unfold obj_truthy in Hs.
  destruct (obj_get o s) as [b|] eqn:E; [|discriminate].
  exact (proj1 (List.Forall_forall _ _) Ho s (obj_get_key _ _ _ E)).
Qed.

(** The tokens of the text a toggle emits, read off the new checkbox map. *)
Lemma toggle_tokens (w : Widget) (symbol : jsstring) :
  disabled w = false -> In symbol allCommonSymbols ->
  keys_in_catalog (selectedSymbols w) ->
  let o := obj_set symbol (negb (obj_truthy (selectedSymbols w) symbol))
                   (selectedSymbols w) in
  selectedSymbols (step w (Toggle symbol)) = o
  /\ value (step w (Toggle symbol)) = updateSymbolInput w o
  /\ tokens (value (step w (Toggle symbol)))
     = List.filter (fun key => obj_truthy o key) (obj_keys o)
       ++ List.filter (fun s => negb (includes allCommonSymbols s)) (tokens (value w)).
Proof.
  intros Hd Hsym Hk o. unfold step, handle, handleSymbolToggle. rewrite Hd.
  widget_projections. fold o. split; [reflexivity|]. split; [reflexivity|].
  unfold updateSymbolInput. rewrite custom_symbols_filter.
  apply emitted_tokens, keys_in_catalog_set; assumption.
Qed.

(** X3: from a synced state, clicking the tile of a catalog symbol changes
    the token set of the text by exactly that symbol (it becomes a token if
    it was not one, and stops being one if it was) and flips exactly that
    checkbox. *)
Theorem toggle_changes_one_symbol (w : Widget) (symbol : jsstring) :
  disabled w = false -> In symbol allCommonSymbols -> synced w ->
  let w' := step w (Toggle symbol) in
  (In symbol (tokens (value w')) <-> ~ In symbol (tokens (value w)))
  /\ (forall t, t <> symbol ->
        (In t (tokens (value w')) <-> In t (tokens (value w))))
  /\ obj_truthy (selectedSymbols w') symbol
     = negb (obj_truthy (selectedSymbols w) symbol)
  /\ (forall s, s <> symbol ->
        obj_truthy (selectedSymbols w') s = obj_truthy (selectedSymbols w) s).
Proof.
  intros Hd Hsym [Hagree Hk] w'.
  destruct (toggle_tokens w symbol Hd Hsym Hk) as (Hsel & _ & Htok).
  subst w'. rewrite Hsel, Htok. clear Hsel Htok.
  split; [|split; [|split]].
  - rewrite in_app_iff, checked_iff, custom_iff, obj_truthy_set_eq, negb_true_iff.
    rewrite <- (Hagree symbol Hsym).
    destruct (obj_truthy (selectedSymbols w) symbol); split; intros; try tauto;
      try congruence.
    destruct H as [H|[_ H]]; [discriminate | contradiction].
  - intros t Ht.
    rewrite in_app_iff, checked_iff, custom_iff.
    rewrite obj_truthy_set_ne by congruence.
    destruct (includes allCommonSymbols t) eqn:Hc.
    + apply includes_In in Hc. rewrite (Hagree t Hc). tauto.
    + assert (Hn : ~ In t allCommonSymbols).
      { intros Hin. apply includes_In in Hin. congruence. }
      split; [|tauto]. intros [Ht'|[Ht' _]]; [|exact Ht'].
      exfalso. apply Hn. exact (keys_truthy_in_catalog _ _ Hk Ht').
  - apply obj_truthy_set_eq.
  - intros s Hs. apply obj_truthy_set_ne. congruence.
Qed.

Lemma toggle_changes_one_symbol_example :
  let text := js "GBPUSD, FOO" in
  let w := mkWidget text false (initialSelected text) [] in
  let w' := step w (Toggle (js "GBPUSD")) in
  disabled w = false /\ In (js "GBPUSD") allCommonSymbols /\ synced w
  /\ value w' = js "FOO"
  /\ ~ In (js "GBPUSD") (tokens (value w')).
Proof.
  intros text w w'.
  assert (Hs : In (js "GBPUSD") allCommonSymbols)
    by (apply includes_In; vm_compute; reflexivity).
  assert (Hw : synced w) by apply synced_initial.
  destruct (toggle_changes_one_symbol w (js "GBPUSD") eq_refl Hs Hw) as (H1 & _).
  split; [reflexivity|]. split; [exact Hs|]. split; [exact Hw|].
  split; [vm_compute; reflexivity|].
  intros Hin. apply H1 in Hin. apply Hin.
  apply includes_In. vm_compute. reflexivity.
Defined.

Lemma obj_set_set (k : jsstring) (v v' : bool) (o : obj) :
  obj_set k v (obj_set k v' o) = obj_set k v o.
Proof.
  induction o as [|[k0 v0] o IH]; cbn.
  - rewrite str_eqb_refl. reflexivity.
  - destruct (str_eqb k0 k) eqn:E; cbn; rewrite E; [reflexivity|].
    rewrite IH. reflexivity.
Qed.

Lemma obj_get_of_key (o : obj) (k : jsstring) :
  In k (obj_keys o) -> obj_get o k = Some (obj_truthy o k).
Proof.
  unfold obj_truthy, obj_keys. induction o as [|[k0 v0] o IH]; cbn; [contradiction|].
  destruct (str_eqb k0 k) eqn:E; [reflexivity|].
  intros [->|Hin]; [rewrite str_eqb_refl in E; discriminate | exact (IH Hin)].
Qed.

Lemma filter_none {A} (f : A -> bool) (l : list A) :
  Forall (fun x => f x = false) l -> List.filter f l = [].
Proof.
  induction 1 as [|x l Hx _ IH]; cbn; [reflexivity|]. rewrite Hx. exact IH.
Qed.

Lemma filter_idem {A} (f : A -> bool) (l : list A) :
  List.filter f (List.filter f l) = List.filter f l.
Proof.
  induction l as [|x l IH]; cbn; [reflexivity|].
  destruct (f x) eqn:E; cbn; [rewrite E, IH; reflexivity | exact IH].
Qed.

(** The custom tokens of an emitted text are those of the text it was
    emitted from. *)
Lemma custom_of_emitted (w : Widget) (o : obj) :
  keys_in_catalog o ->
  List.filter (fun s => negb (includes allCommonSymbols s))
              (tokens (updateSymbolInput w o))
  = List.filter (fun s => negb (includes allCommonSymbols s)) (tokens (value w)).
Proof.
  intros Ho. unfold updateSymbolInput.
  rewrite custom_symbols_filter, emitted_tokens by exact Ho.
  rewrite List.filter_app, filter_idem, filter_none; [reflexivity|].
  apply List.Forall_forall. intros s Hs. apply filter_In in Hs.
  destruct Hs as [Hs _]. apply negb_false_iff, includes_In.
  exact (proj1 (List.Forall_forall _ _) Ho s Hs).
Qed.

(** X4: clicking the same tile twice restores the checkbox map exactly, and
    brings the text back in normal form: the checked symbols in map order,
    then the custom tokens in their order, joined by commas with no white
    space.  From a synced state the text has the same tokens as at the
    start. *)
Theorem toggle_twice_restores (w : Widget) (symbol : jsstring) :
  disabled w = false -> In symbol allCommonSymbols -> synced w ->
  In symbol (obj_keys (selectedSymbols w)) ->
  let w2 := step (step w (Toggle symbol)) (Toggle symbol) in
  selectedSymbols w2 = selectedSymbols w
  /\ value w2 = updateSymbolInput w (selectedSymbols w)
  /\ tokens (value w2)
     = List.filter (fun key => obj_truthy (selectedSymbols w) key)
                   (obj_keys (selectedSymbols w))
       ++ List.filter (fun s => negb (includes allCommonSymbols s)) (tokens (value w))
  /\ (forall t, In t (tokens (value w2)) <-> In t (tokens (value w))).
Proof.
  intros Hd Hsym [Hagree Hk] Hkey w2. subst w2.
  destruct (toggle_tokens w symbol Hd Hsym Hk) as (Hsel1 & Hval1 & _).
  set (w1 := step w (Toggle symbol)) in *.
  assert (Hd1 : disabled w1 = false).
  { unfold w1, step, handle, handleSymbolToggle. rewrite Hd. exact Hd. }
  assert (Hk1 : keys_in_catalog (selectedSymbols w1)).
  { rewrite Hsel1. apply keys_in_catalog_set; assumption. }
  destruct (toggle_tokens w1 symbol Hd1 Hsym Hk1) as (Hsel2 & Hval2 & _).
  set (w2 := step w1 (Toggle symbol)) in *.
  assert (Hback : selectedSymbols w2 = selectedSymbols w).
  { rewrite Hsel2, Hsel1, obj_truthy_set_eq, negb_involutive, obj_set_set.
    apply obj_set_same, obj_get_of_key, Hkey. }
  assert (Hvalue : value w2 = updateSymbolInput w (selectedSymbols w)).
  { rewrite Hval2, <- Hsel2, Hback. unfold updateSymbolInput at 1.
    rewrite custom_symbols_filter, Hval1.
    rewrite custom_of_emitted by (rewrite <- Hsel1; exact Hk1).
    unfold updateSymbolInput. rewrite custom_symbols_filter. reflexivity. }
  assert (Htok : tokens (value w2)
     = List.filter (fun key => obj_truthy (selectedSymbols w) key)
                   (obj_keys (selectedSymbols w))
       ++ List.filter (fun s => negb (includes allCommonSymbols s)) (tokens (value w))).
  { rewrite Hvalue. unfold updateSymbolInput. rewrite custom_symbols_filter.
    apply emitted_tokens, Hk. }
  split; [exact Hback|]. split; [exact Hvalue|]. split; [exact Htok|].
  intros t. rewrite Htok, in_app_iff, checked_iff, custom_iff.
  destruct (includes allCommonSymbols t) eqn:Hc.
  - apply includes_In in Hc. rewrite (Hagree t Hc). tauto.
  - assert (Hn : ~ In t allCommonSymbols).
    { intros Hin. apply includes_In in Hin. congruence. }
    split; [|tauto]. intros [Ht|[Ht _]]; [|exact Ht].
    exfalso. apply Hn. exact (keys_truthy_in_catalog _ _ Hk Ht).
Qed.

Lemma toggle_twice_restores_example :
  let text := js " FOO , EURUSD" in
  let w := mkWidget text false (initialSelected text) [] in
  let w2 := step (step w (Toggle (js "EURUSD"))) (Toggle (js "EURUSD")) in
  disabled w = false /\ In (js "EURUSD") allCommonSymbols /\ synced w
  /\ In (js "EURUSD") (obj_keys (selectedSymbols w))
  /\ selectedSymbols w2 = selectedSymbols w
  /\ value w2 = js "EURUSD,FOO".
Proof.
  intros text w w2.
  assert (Hs : In (js "EURUSD") allCommonSymbols)
    by (apply includes_In; vm_compute; reflexivity).
  assert (Hw : synced w) by apply synced_initial.
  assert (Hkey : In (js "EURUSD") (obj_keys (selectedSymbols w))).
  { cbn [selectedSymbols w]. rewrite initialSelected_keys. exact Hs. }
  destruct (toggle_twice_restores w (js "EURUSD") eq_refl Hs Hw Hkey) as (H1 & H2 & _).
  split; [reflexivity|]. split; [exact Hs|]. split; [exact Hw|].
  split; [exact Hkey|]. split; [exact H1|].
  etransitivity; [exact H2 | vm_compute; reflexivity].
Defined.

(** X5: adding is idempotent: a second Add right after the first changes
    nothing, since the first either was refused by the guard or cleared the
    custom-symbol field. *)
Theorem add_custom_twice (w : Widget) :
  step (step w AddCustom) AddCustom = step w AddCustom.
Proof.
  unfold step, handle, handleAddCustomSymbol.
  destruct (negb (nonempty (customSymbol w)) || disabled w) eqn:G.
  - widget_projections. rewrite G. reflexivity.
  - widget_projections. reflexivity.
Qed.

(** X6: a custom symbol typed with white space at either end is never
    recognised as present nor as a catalog symbol: an enabled widget always
    appends it as typed and leaves the checkboxes alone.  When it has no
    comma, the tokens of the new text are the old tokens followed by the
    trimmed symbol (if anything is left of it), so a symbol that was already
    a token now occurs once more. *)
Theorem add_custom_padded_appends (w : Widget) :
  disabled w = false -> customSymbol w <> [] ->
  trim (customSymbol w) <> customSymbol w ->
  let out := handleAddCustomSymbol w in
  onChange_call out = Some (join_comma (tokens (value w) ++ [customSymbol w]))
  /\ next_selected out = selectedSymbols w
  /\ (~ In comma (customSymbol w) ->
      tokens (value (step w AddCustom))
      = tokens (value w) ++ List.filter nonempty [trim (customSymbol w)]).
Proof.
  intros Hd Hne Hpad out. subst out. unfold step, handle, handleAddCustomSymbol.
  assert (Hg : negb (nonempty (customSymbol w)) || disabled w = false).
  { rewrite Hd. destruct (customSymbol w); [congruence | reflexivity]. }
  assert (Hnot : forall l, Forall token l -> includes l (customSymbol w) = false).
  { intros l Hl. destruct (includes l (customSymbol w)) eqn:E; [|reflexivity].
    apply includes_In in E.
    destruct (proj1 (List.Forall_forall _ _) Hl _ E) as (_ & _ & Ht).
    exfalso. apply Hpad, trim_of_trimmed, Ht. }
  rewrite Hg, (Hnot _ (tokens_are_tokens (value w))), (Hnot _ catalog_tokens).
  widget_projections. split; [reflexivity|]. split; [reflexivity|].
  intros Hc. rewrite tokens_join_app by apply tokens_are_tokens.
  unfold tokens at 2. rewrite split_comma_piece by exact Hc. reflexivity.
Qed.

Lemma add_custom_padded_appends_example :
  let w := mkWidget (js "EURUSD") false (initialSelected (js "EURUSD")) (js "EURUSD ") in
  disabled w = false /\ customSymbol w <> []
  /\ trim (customSymbol w) <> customSymbol w
  /\ ~ In comma (customSymbol w)
  /\ value (step w AddCustom) = js "EURUSD,EURUSD "
  /\ tokens (value (step w AddCustom)) = [js "EURUSD"; js "EURUSD"].
Proof.
  intros w.
  assert (Hne : customSymbol w <> []) by discriminate.
  assert (Hpad : trim (customSymbol w) <> customSymbol w)
    by (vm_compute; discriminate).
  assert (Hc : ~ In comma (customSymbol w)).
  { intros Hin. assert (E : existsb (N.eqb comma) (customSymbol w) = true).
    { apply existsb_exists. exists comma. split; [exact Hin | apply N.eqb_refl]. }
    vm_compute in E. discriminate. }
  destruct (add_custom_padded_appends w eq_refl Hne Hpad) as (_ & _ & Htok).
  split; [reflexivity|]. split; [exact Hne|]. split; [exact Hpad|].
  split; [exact Hc|]. split; [vm_compute; reflexivity|].
  etransitivity; [exact (Htok Hc) | vm_compute; reflexivity].
Defined.

Lemma set_all_true (keys : list jsstring) (acc : obj) (c : jsstring) :
  In c keys \/ obj_truthy acc c = true ->
  obj_truthy (fold_left (fun acc category => obj_set category true acc) keys acc) c
  = true.
Proof.
  revert acc. induction keys as [|k keys IH]; intros acc Hc; cbn.
  - destruct Hc as [[]|Hc]. exact Hc.
  - apply IH. destruct (str_eqb k c) eqn:E.
    + apply str_eqb_eq in E. subst k. right. apply obj_truthy_set_eq.
    + apply str_eqb_neq in E. destruct Hc as [[Hc|Hc]|Hc]; [congruence | left; exact Hc |].
      right. rewrite obj_truthy_set_ne by exact E. exact Hc.
Qed.

(** X7: toggling a category panel flips the expanded flag of that category
    and of no other; toggling it twice restores [expandedCategories]; and
    at mount every category of the catalog is expanded. *)
Theorem toggleCategory_flips_one (expandedCategories : obj) (category : jsstring) :
  obj_truthy (toggleCategory expandedCategories category) category
  = negb (obj_truthy expandedCategories category)
  /\ (forall other, other <> category ->
        obj_get (toggleCategory expandedCategories category) other
        = obj_get expandedCategories other)
  /\ (In category (obj_keys expandedCategories) ->
        toggleCategory (toggleCategory expandedCategories category) category
        = expandedCategories)
  /\ obj_keys initialExpanded = List.map fst symbolCategories
  /\ (forall c, In c (List.map fst symbolCategories) ->
        obj_truthy initialExpanded c = true).
Proof.
  unfold toggleCategory. split; [|split; [|split; [|split]]].
  - apply obj_truthy_set_eq.
  - intros other Hne. apply obj_get_set_ne. congruence.
  - intros Hkey. rewrite obj_truthy_set_eq, negb_involutive, obj_set_set.
    apply obj_set_same, obj_get_of_key, Hkey.
  - vm_compute. reflexivity.
  - intros c Hc. apply set_all_true. left. exact Hc.
Qed.

Lemma category_symbols_in (categories : list (jsstring * list jsstring))
      (category s : jsstring) :
  In s (category_symbols categories category) ->
  In s (concat (List.map snd categories)).
Proof.
  induction categories as [|[name symbols] rest IH]; cbn; [tauto|].
  intros Hs. apply in_or_app. destruct (str_eqb name category); [left; exact Hs|].
  right. exact (IH Hs).
Qed.

Lemma filter_ext_in_list {A} (f g : A -> bool) (l : list A) :
  (forall x, In x l -> f x = g x) -> List.filter f l = List.filter g l.
Proof.
  induction l as [|x l IH]; intros E; cbn; [reflexivity|].
  rewrite (E x) by (left; reflexivity).
  rewrite IH by (intros y Hy; apply E; right; exact Hy). reflexivity.
Qed.

(** X8: the counter of a category never exceeds the size of the category;
    in a synced widget it is the number of symbols of the category that are
    tokens of the text; and the three counters add up to the number of
    checked catalog symbols. *)
Theorem getSelectedCountByCategory_counts (w : Widget) (category : jsstring) :
  (getSelectedCountByCategory (selectedSymbols w) category
   <= length (category_symbols symbolCategories category))%nat
  /\ (synced w ->
      getSelectedCountByCategory (selectedSymbols w) category
      = length (List.filter (fun s => includes (tokens (value w)) s)
                            (category_symbols symbolCategories category)))
  /\ (getSelectedCountByCategory (selectedSymbols w) (js "Major Forex")
      + getSelectedCountByCategory (selectedSymbols w) (js "Crypto")
      + getSelectedCountByCategory (selectedSymbols w) (js "Indices")
      = length (List.filter (fun s => obj_truthy (selectedSymbols w) s)
                            allCommonSymbols))%nat.
Proof.
  unfold getSelectedCountByCategory. split; [|split].
  - apply List.filter_length_le.
  - intros [Hagree _]. f_equal. apply filter_ext_in_list. intros s Hs.
    rewrite orb_false_r. apply eq_true_iff_eq. rewrite includes_In.
    apply Hagree. exact (category_symbols_in symbolCategories category s Hs).
  - change (category_symbols symbolCategories (js "Major Forex"))
      with (snd (nth 0 symbolCategories ([], []))).
    change (category_symbols symbolCategories (js "Crypto"))
      with (snd (nth 1 symbolCategories ([], []))).
    change (category_symbols symbolCategories (js "Indices"))
      with (snd (nth 2 symbolCategories ([], []))).
    change allCommonSymbols
      with (snd (nth 0 symbolCategories ([], []))
            ++ snd (nth 1 symbolCategories ([], []))
            ++ snd (nth 2 symbolCategories ([], []))).
    rewrite !List.filter_app, !length_app.
    rewrite !(filter_ext_in_list
                (fun symbol => obj_truthy (selectedSymbols w) symbol || false)
                (fun s => obj_truthy (selectedSymbols w) s))
      by (intros; apply orb_false_r).
    lia.
Qed.

Lemma getSelectedCountByCategory_counts_example :
  let w := mkWidget (js "EURUSD, BTCUSD, FOO") false
                    (initialSelected (js "EURUSD, BTCUSD, FOO")) [] in
  synced w
  /\ getSelectedCountByCategory (selectedSymbols w) (js "Major Forex") = 1%nat
  /\ getSelectedCountByCategory (selectedSymbols w) (js "Crypto") = 1%nat
  /\ getSelectedCountByCategory (selectedSymbols w) (js "Indices") = 0%nat.
Proof.
  intros w. assert (Hw : synced w) by apply synced_initial.
  split; [exact Hw|].
  split; [|split];
    (etransitivity;
     [exact (proj1 (proj2 (getSelectedCountByCategory_counts w _)) Hw)
     | vm_compute; reflexivity]).
Defined.

Lemma count_set_outside (o : obj) (symbol : jsstring) (b : bool) (l : list jsstring) :
  ~ In symbol l ->
  List.filter (fun s => obj_truthy (obj_set symbol b o) s || false) l
  = List.filter (fun s => obj_truthy o s || false) l.
Proof.
  intros Hn. apply filter_ext_in_list. intros s Hs.
  rewrite obj_truthy_set_ne; [reflexivity|]. intros ->. contradiction.
Qed.

Lemma count_set_inside (o : obj) (symbol : jsstring) (l : list jsstring) :
  List.NoDup l -> In symbol l ->
  let b := obj_truthy o symbol in
  (length (List.filter (fun s => obj_truthy (obj_set symbol (negb b) o) s || false) l)
   + (if b then 1 else 0)
   = length (List.filter (fun s => obj_truthy o s || false) l)
     + (if b then 0 else 1))%nat.
Proof.
  intros Hnd Hin b. induction Hnd as [|x l Hx Hnd IH]; [contradiction|].
  cbn [List.filter]. destruct (str_eqb symbol x) eqn:E.
  - apply str_eqb_eq in E. subst x.
    rewrite obj_truthy_set_eq, count_set_outside by exact Hx.
    fold b. destruct b; cbn; lia.
  - apply str_eqb_neq in E. destruct Hin as [Hin|Hin]; [congruence|].
    rewrite obj_truthy_set_ne by exact E. specialize (IH Hin).
    destruct (obj_truthy o x); cbn; lia.
Qed.

Lemma category_symbols_NoDup (category : jsstring) :
  List.NoDup (category_symbols symbolCategories category).
Proof.
  unfold symbolCategories. cbn [category_symbols].
  repeat match goal with
         | |- context [if ?c then _ else _] => destruct c
         end;
    repeat (constructor; [cbn; intuition discriminate|]); constructor.
Qed.

(** X9: a click on the tile of a symbol moves the counter of a category that
    lists the symbol by exactly one (down when the symbol was checked, up
    when it was not) and leaves the counter of every other category as it
    was. *)
Theorem toggle_moves_one_counter (w : Widget) (symbol category : jsstring) :
  disabled w = false ->
  let w' := step w (Toggle symbol) in
  let before := getSelectedCountByCategory (selectedSymbols w) category in
  let after := getSelectedCountByCategory (selectedSymbols w') category in
  (In symbol (category_symbols symbolCategories category) ->
     if obj_truthy (selectedSymbols w) symbol
     then S after = before
     else after = S before)
  /\ (~ In symbol (category_symbols symbolCategories category) ->
      after = before).
Proof.
  intros Hd. cbv zeta. unfold step, handle, handleSymbolToggle. rewrite Hd.
  widget_projections. unfold getSelectedCountByCategory. split.
  - intros Hin.
    pose proof (count_set_inside (selectedSymbols w) symbol _
                  (category_symbols_NoDup category) Hin) as Hcount.
    cbv zeta in Hcount.
    destruct (obj_truthy (selectedSymbols w) symbol); cbn [negb] in *; lia.
  - intros Hn. rewrite count_set_outside by exact Hn. reflexivity.
Qed.

Lemma toggle_moves_one_counter_example :
  let w := mkWidget (js "EURUSD") false (initialSelected (js "EURUSD")) [] in
  let w' := step w (Toggle (js "GBPUSD")) in
  disabled w = false
  /\ In (js "GBPUSD") (category_symbols symbolCategories (js "Major Forex"))
  /\ getSelectedCountByCategory (selectedSymbols w) (js "Major Forex") = 1%nat
  /\ getSelectedCountByCategory (selectedSymbols w') (js "Major Forex") = 2%nat
  /\ getSelectedCountByCategory (selectedSymbols w') (js "Crypto") = 0%nat.
Proof.
  intros w w'.
  assert (Hin : In (js "GBPUSD") (category_symbols symbolCategories (js "Major Forex")))
    by (apply includes_In; vm_compute; reflexivity).
  assert (Hb : getSelectedCountByCategory (selectedSymbols w) (js "Major Forex") = 1%nat)
    by (vm_compute; reflexivity).
  destruct (toggle_moves_one_counter w (js "GBPUSD") (js "Major Forex") eq_refl)
    as (Hup & _).
  specialize (Hup Hin).
  split; [reflexivity|]. split; [exact Hin|]. split; [exact Hb|].
  split; [|vm_compute; reflexivity].
  change (obj_truthy (selectedSymbols w) (js "GBPUSD")) with false in Hup.
  exact (eq_trans Hup (f_equal S Hb)).
Defined.

Lemma obj_keys_set_present (k : jsstring) (v : bool) (o : obj) :
  In k (obj_keys o) -> obj_keys (obj_set k v o) = obj_keys o.
Proof.
  unfold obj_keys. induction o as [|[k0 v0] o IH]; cbn; [contradiction|].
  destruct (str_eqb k0 k) eqn:E; [reflexivity|].
  intros [->|Hin]; [rewrite str_eqb_refl in E; discriminate|].
  cbn. rewrite (IH Hin). reflexivity.
Qed.

Lemma derive_over_keys_present (arr cat : list jsstring) (o : obj) :
  (forall c, In c cat -> In c (obj_keys o)) ->
  obj_keys (derive_over arr cat o) = obj_keys o.
Proof.
  unfold derive_over. revert o. induction cat as [|c cat IH]; intros o Hc; cbn;
    [reflexivity|].
  assert (Hk : obj_keys (obj_set c (includes arr c) o) = obj_keys o)
    by (apply obj_keys_set_present, Hc; left; reflexivity).
  rewrite IH; [exact Hk|]. intros c' Hc'. rewrite Hk. apply Hc. right. exact Hc'.
Qed.

Lemma step_keeps_keys (w : Widget) (e : Edit) :
  obj_keys (selectedSymbols w) = allCommonSymbols -> offered e ->
  obj_keys (selectedSymbols (step w e)) = allCommonSymbols.
Proof.
  intros Hk He. destruct e as [symbol|text|]; unfold step, handle.
  - unfold handleSymbolToggle. destruct (disabled w); widget_projections; [exact Hk|].
    rewrite obj_keys_set_present; [exact Hk|]. rewrite Hk. exact He.
  - unfold handleDirectInputChange. widget_projections.
    change (derive (tokens text) (selectedSymbols w))
      with (derive_over (tokens text) allCommonSymbols (selectedSymbols w)).
    rewrite derive_over_keys_present; [exact Hk|]. intros c Hc. rewrite Hk. exact Hc.
  - unfold handleAddCustomSymbol.
    destruct (negb (nonempty (customSymbol w)) || disabled w); widget_projections;
      [exact Hk|].
    destruct (includes allCommonSymbols (customSymbol w)) eqn:Hc; [|exact Hk].
    rewrite obj_keys_set_present; [exact Hk|]. rewrite Hk. apply includes_In, Hc.
Qed.

(** X18: after mount, whatever tiles are clicked, texts typed and custom
    symbols added, the checkbox map keeps exactly the catalog symbols as
    keys, in catalog order; so the text the widget emits always lists the
    checked symbols in catalog order, before the custom tokens. *)
Theorem keys_stay_catalog (text : jsstring) (d : bool) (c : jsstring)
        (edits : list Edit) :
  Forall offered edits ->
  let w := fold_left step edits (mkWidget text d (initialSelected text) c) in
  obj_keys (selectedSymbols w) = allCommonSymbols
  /\ updateSymbolInput w (selectedSymbols w)
     = join_comma
         (List.filter (fun s => obj_truthy (selectedSymbols w) s) allCommonSymbols
          ++ List.filter (fun s => negb (includes allCommonSymbols s))
                         (tokens (value w))).
Proof.
  intros Hoffered. cbv zeta.
  assert (Hkeys : forall w0,
            obj_keys (selectedSymbols w0) = allCommonSymbols ->
            obj_keys (selectedSymbols (fold_left step edits w0)) = allCommonSymbols).
  { induction Hoffered as [|e edits He _ IH]; intros w0 Hk; cbn; [exact Hk|].
    apply IH, step_keeps_keys; assumption. }
  specialize (Hkeys (mkWidget text d (initialSelected text) c)
                    (initialSelected_keys text)).
  split; [exact Hkeys|].
  unfold updateSymbolInput. rewrite custom_symbols_filter, Hkeys. reflexivity.
Qed.

Lemma keys_stay_catalog_example :
  let edits := [Toggle (js "NAS100"); DirectInput (js "foo, USDJPY"); AddCustom;
                Toggle (js "EURUSD")] in
  let w := fold_left step edits (mkWidget [] false (initialSelected []) (js "BAR")) in
  Forall offered edits
  /\ obj_keys (selectedSymbols w) = allCommonSymbols
  /\ value w = js "EURUSD,USDJPY,foo,BAR".
Proof.
  intros edits w.
  assert (Ho : Forall offered edits).
  { repeat constructor; cbn; apply includes_In; vm_compute; reflexivity. }
  split; [exact Ho|].
  split; [exact (proj1 (keys_stay_catalog [] false (js "BAR") edits Ho))|].
  vm_compute. reflexivity.
Defined.

End SelectorExtras.

(** * Further properties of the controller *)

Section ControllerExtras.
Context `{JsEngine}.
Variable net : list request -> request -> fetch_result.

#[local] Arguments js : simpl never.
#[local] Arguments get_prop : simpl never.

Ltac run_ops :=
  unfold startMonitoring, stopMonitoring, fetchSymbolDetails, refreshData,
    fetchSignals, fetchHealthStatus, fetchMonitorStatus, finally, try_catch, bind,
    fetch, json_body, read_prop, ToString, promise_all4, encodeURIComponent_check,
    setMonitorStatus, setSignals, setHealthStatus, setSymbolDetails,
    setSelectedSymbol, setIsLoading, setError, setActiveView, update,
    console_error, ret, throw.

(** X10: with the monitor active, a signals answer whose body parses
    replaces the signals wholesale, whatever the status code, and touches no
    other slot; a transport failure or a body that does not parse leaves the
    whole state as it was and logs to the console.  One request is issued
    and the call settles fulfilled either way. *)
Theorem fetchSignals_replaces_signals (r : AppState) (w : World) :
  monitor_active r = true ->
  (forall code data,
     net (requests w) GetSignals = Responded (mkResponse code (inr data)) ->
     fetchSignals net r w
     = (mkWorld (with_signals data (st w)) (requests w ++ [GetSignals]) (console w),
        inr tt))
  /\ (succeeded (net (requests w) GetSignals) = None ->
      fetchSignals net r w
      = (mkWorld (st w) (requests w ++ [GetSignals])
                 (console w ++ [js "Error fetching signals:"]), inr tt)).
Proof.
  unfold monitor_active. intros Hact.
  assert (Hguard :
    fetchSignals net r w
    = try_catch
        (bind (fetch net GetSignals)
              (fun response => bind (json_body response) (fun data => setSignals data)))
        (fun _ => console_error (js "Error fetching signals:")) w).
  { unfold fetchSignals, bind at 1, read_prop, ret, throw.
    destruct (get_prop (monitorStatus r) (js "active")) as [| |v]; try discriminate.
    cbn. rewrite Hact. reflexivity. }
  rewrite Hguard. split.
  - intros code data E. run_ops. rewrite E. reflexivity.
  - run_ops. destruct (net (requests w) GetSignals) as [m|[code [e|data]]]; cbn;
      [reflexivity | reflexivity | discriminate].
Qed.

Lemma str_includes_absent (s p : jsstring) (c : N) :
  ~ In c s -> str_includes s (c :: p) = false.
Proof.
  induction s as [|x s IH]; intros Hn; [reflexivity|].
  cbn [str_includes starts_with].
  rewrite IH by (intros Hin; apply Hn; right; exact Hin).
  destruct (N.eqb_spec x c) as [->|_]; [|reflexivity].
  exfalso. apply Hn. left. reflexivity.
Qed.

Lemma uint_digits (d : Decimal.uint) :
  Forall (fun c => 48 <= c <= 57)
         (List.map N_of_ascii
                   (list_ascii_of_string (DecimalString.NilEmpty.string_of_uint d))).
Proof.
  induction d; cbn; constructor; try assumption; cbn; lia.
Qed.

Lemma decimal_digits (n : N) : Forall (fun c => 48 <= c <= 57) (decimal n).
Proof.
  unfold decimal, js, DecimalString.NilZero.string_of_uint.
  destruct (N.to_uint n) eqn:E.
  - cbn. constructor; [lia | constructor].
  - rewrite <- E. apply uint_digits.
  - rewrite <- E. apply uint_digits.
  - rewrite <- E. apply uint_digits.
  - rewrite <- E. apply uint_digits.
  - rewrite <- E. apply uint_digits.
  - rewrite <- E. apply uint_digits.
  - rewrite <- E. apply uint_digits.
  - rewrite <- E. apply uint_digits.
  - rewrite <- E. apply uint_digits.
  - rewrite <- E. apply uint_digits.
Qed.

(** X11: an answer to the health check with a non-success status never
    reads the body and never marks the health state as error: the error
    becomes 'Could not connect to API server: HTTP error! Status: <code>'
    and the health state stays as it was. *)
Theorem fetchHealthStatus_http_status (w : World) (resp : response) :
  net (requests w) GetHealth = Responded resp ->
  ok resp = false ->
  fetchHealthStatus net w
  = (mkWorld
       (with_error
          (Some (js "Could not connect to API server: HTTP error! Status: "
                 ++ decimal (status resp)))
          (st w))
       (requests w ++ [GetHealth])
       (console w ++ [js "Error fetching health status:"]),
     inr tt)
  /\ healthStatus (st (fst (fetchHealthStatus net w))) = healthStatus (st w).
Proof.
  intros E Hok.
  assert (Hbranch :
    str_includes (js "HTTP error! Status: " ++ decimal (status resp))
                 (js "Failed to fetch")
    || str_eqb (js "Error") (js "TypeError") = false).
  { change (js "Failed to fetch") with (70 :: js "ailed to fetch").
    rewrite str_includes_absent; [reflexivity|].
    intros Hin. apply in_app_or in Hin. destruct Hin as [Hin|Hin].
    - assert (F : existsb (N.eqb 70) (js "HTTP error! Status: ") = true).
      { apply existsb_exists. exists 70. split; [exact Hin | reflexivity]. }
      vm_compute in F. discriminate.
    - pose proof (proj1 (List.Forall_forall _ _) (decimal_digits (status resp)) _ Hin)
        as Hd.
      cbv beta in Hd. lia. }
  assert (Hrun :
    fetchHealthStatus net w
    = (mkWorld
         (with_error
            (Some (js "Could not connect to API server: HTTP error! Status: "
                   ++ decimal (status resp)))
            (st w))
         (requests w ++ [GetHealth])
         (console w ++ [js "Error fetching health status:"]),
       inr tt)).
  { run_ops. rewrite E, Hok. cbn [negb Error exn_name exn_message fst snd].
    cbn [st requests console]. rewrite Hbranch. reflexivity. }
  split; [exact Hrun|]. rewrite Hrun. reflexivity.
Qed.

(** X12: the contract of [stopMonitoring].  It never rejects, ends with the
    loading flag off, and issues the stop request once, followed by one
    status request exactly when the answer has a success status.  On
    success the error is cleared and the monitor status is the refetched one
    (the old one if that fetch fails).  Every other path leaves the monitor
    status as it was and ends in the error banner: the message of a network
    rejection, the message of the parse error of an unreadable error body,
    the engine's TypeError text for a [null] body, the backend's [detail]
    converted to a string when it is truthy (the engine's TypeError text
    when that conversion throws), and 'Failed to stop monitoring' when
    [detail] is missing or falsy. *)
Theorem stopMonitoring_outcomes (w : World) :
  let w' := fst (stopMonitoring net w) in
  (snd (stopMonitoring net w) = inr tt
   /\ isLoading (st w') = false
   /\ (requests w' = requests w ++ [PostStop]
       \/ requests w' = requests w ++ [PostStop; GetMonitorStatus]))
  /\ (requests w' = requests w ++ [PostStop; GetMonitorStatus]
      <-> exists resp, net (requests w) PostStop = Responded resp /\ ok resp = true)
  /\ ((~ exists resp, net (requests w) PostStop = Responded resp /\ ok resp = true) ->
      monitorStatus (st w') = monitorStatus (st w)
      /\ exists message, error (st w') = Some message)
  /\ (forall resp,
        net (requests w) PostStop = Responded resp -> ok resp = true ->
        error (st w') = None
        /\ monitorStatus (st w')
           = match succeeded (net (requests w ++ [PostStop]) GetMonitorStatus) with
             | Some data => data
             | None => monitorStatus (st w)
             end)
  /\ (forall message,
        net (requests w) PostStop = NetworkError message ->
        error (st w') = Some message)
  /\ (forall resp e,
        net (requests w) PostStop = Responded resp -> ok resp = false ->
        body resp = inl e ->
        error (st w') = Some (exn_message e))
  /\ (forall resp,
        net (requests w) PostStop = Responded resp -> ok resp = false ->
        body resp = inr JNull ->
        error (st w') = Some (null_property_message (js "detail")))
  /\ (forall resp errorData d,
        net (requests w) PostStop = Responded resp -> ok resp = false ->
        body resp = inr errorData ->
        get_prop errorData (js "detail") = Value d -> truthy d = true ->
        error (st w')
        = Some (if converts d then to_string d else cannot_convert_message))
  /\ (forall resp errorData,
        net (requests w) PostStop = Responded resp -> ok resp = false ->
        body resp = inr errorData ->
        (get_prop errorData (js "detail") = Undefined
         \/ exists d, get_prop errorData (js "detail") = Value d /\ truthy d = false) ->
        error (st w') = Some (js "Failed to stop monitoring")).
Proof.
  cbv zeta.
  assert (Hneq : forall l : list request,
            l ++ [PostStop] <> l ++ [PostStop; GetMonitorStatus]).
  { intros l F. apply app_inv_head in F. discriminate. }
  split; [|split; [|split; [|split; [|split; [|split; [|split; [|split]]]]]]].
  - run_ops. run_ops. cbn.
    destruct (net (requests w) PostStop) as [m|resp]; cbn; [auto|].
    destruct (ok resp); cbn.
    + destruct (net (requests w ++ [PostStop]) GetMonitorStatus) as [m|[code [e|data]]];
        cbn; rewrite <- app_assoc; auto.
    + destruct (body resp) as [e|errorData]; cbn; [auto|].
      destruct (get_prop errorData (js "detail")) as [| |d]; cbn; [auto | auto |].
      destruct (truthy d); cbn; [|auto]. destruct (converts d); cbn; auto.
  - run_ops. run_ops. cbn.
    destruct (net (requests w) PostStop) as [m|resp]; cbn.
    + split; [intros F; destruct (Hneq _ F) | intros (resp & F & _); discriminate].
    + destruct (ok resp) eqn:Hok; cbn.
      * destruct (net (requests w ++ [PostStop]) GetMonitorStatus)
          as [m|[code [e|data]]]; cbn; rewrite <- app_assoc; split; eauto.
      * assert (Hno : ~ exists resp0, Responded resp = Responded resp0 /\ ok resp0 = true).
        { intros (resp0 & F & Hok0). injection F as <-. congruence. }
        destruct (body resp) as [e|errorData]; cbn;
          [split; [intros F; destruct (Hneq _ F) | intros F; destruct (Hno F)]|].
        destruct (get_prop errorData (js "detail")) as [| |d]; cbn;
          [split; [intros F; destruct (Hneq _ F) | intros F; destruct (Hno F)]
          |split; [intros F; destruct (Hneq _ F) | intros F; destruct (Hno F)]|].
        destruct (truthy d); cbn;
          [|split; [intros F; destruct (Hneq _ F) | intros F; destruct (Hno F)]].
        destruct (converts d); cbn;
          (split; [intros F; destruct (Hneq _ F) | intros F; destruct (Hno F)]).
  - intros Hno. run_ops. run_ops. cbn.
    destruct (net (requests w) PostStop) as [m|resp]; cbn; [eauto|].
    destruct (ok resp) eqn:Hok; [exfalso; apply Hno; eauto|]. cbn.
    destruct (body resp) as [e|errorData]; cbn; [eauto|].
    destruct (get_prop errorData (js "detail")) as [| |d]; cbn; [eauto | eauto |].
    destruct (truthy d); cbn; [|eauto]. destruct (converts d); cbn; eauto.
  - intros resp E Hok. run_ops. run_ops. cbn. rewrite E. cbn. rewrite Hok. cbn.
    destruct (net (requests w ++ [PostStop]) GetMonitorStatus) as [m|[code [e|data]]];
      cbn; auto.
  - intros message E. run_ops. cbn. rewrite E. reflexivity.
  - intros resp e E Hok Hbody.
    run_ops. cbn. rewrite E. cbn. rewrite Hok. cbn. rewrite Hbody. reflexivity.
  - intros resp E Hok Hbody.
    run_ops. cbn. rewrite E. cbn. rewrite Hok. cbn. rewrite Hbody. reflexivity.
  - intros resp errorData d E Hok Hbody Hdetail Hd.
    run_ops. cbn. rewrite E. cbn. rewrite Hok. cbn. rewrite Hbody. cbn.
    rewrite Hdetail. cbn. rewrite Hd. cbn. destruct (converts d); reflexivity.
  - intros resp errorData E Hok Hbody Hdetail.
    run_ops. cbn. rewrite E. cbn. rewrite Hok. cbn. rewrite Hbody. cbn.
    destruct Hdetail as [Hdetail|(d & Hdetail & Hd)]; rewrite Hdetail; cbn;
      [|rewrite Hd]; reflexivity.
Qed.

(** X13: [startMonitoring] never rejects, ends with the loading flag off, and
    issues the start request once, followed by one status request exactly
    when the answer has a success status: there is no retry on any path.
    Every failure leaves the monitor status as it was and ends in the error
    banner: the message of a network rejection, the message of the parse
    error of an unreadable error body, the engine's TypeError text for a
    [null] body, the backend's [detail] converted to a string when it is
    truthy (a list of validation errors shows as its elements joined by
    commas; when the conversion throws, as for an object with its own
    [toString] key, the engine's TypeError text), and 'Failed to start
    monitoring' when [detail] is missing or falsy. *)
Theorem startMonitoring_failure_paths (r : AppState) (w : World) :
  let start :=
    PostStart (List.map trim (split_comma (symbolInput r)))
              (parseFloat (to_string (riskPercentage r)))
              (parseFloat (to_string (accountSize r))) in
  let w' := fst (startMonitoring net r w) in
  (snd (startMonitoring net r w) = inr tt
   /\ isLoading (st w') = false
   /\ (requests w' = requests w ++ [start]
       \/ requests w' = requests w ++ [start; GetMonitorStatus]))
  /\ (requests w' = requests w ++ [start; GetMonitorStatus]
      <-> exists resp, net (requests w) start = Responded resp /\ ok resp = true)
  /\ ((~ exists resp, net (requests w) start = Responded resp /\ ok resp = true) ->
      monitorStatus (st w') = monitorStatus (st w)
      /\ exists message, error (st w') = Some message)
  /\ (forall resp,
        net (requests w) start = Responded resp -> ok resp = true ->
        error (st w') = None
        /\ monitorStatus (st w')
           = match succeeded (net (requests w ++ [start]) GetMonitorStatus) with
             | Some data => data
             | None => monitorStatus (st w)
             end)
  /\ (forall message,
        net (requests w) start = NetworkError message ->
        error (st w') = Some message)
  /\ (forall resp e,
        net (requests w) start = Responded resp -> ok resp = false ->
        body resp = inl e ->
        error (st w') = Some (exn_message e))
  /\ (forall resp,
        net (requests w) start = Responded resp -> ok resp = false ->
        body resp = inr JNull ->
        error (st w') = Some (null_property_message (js "detail")))
  /\ (forall resp errorData d,
        net (requests w) start = Responded resp -> ok resp = false ->
        body resp = inr errorData ->
        get_prop errorData (js "detail") = Value d -> truthy d = true ->
        error (st w')
        = Some (if converts d then to_string d else cannot_convert_message))
  /\ (forall resp errorData,
        net (requests w) start = Responded resp -> ok resp = false ->
        body resp = inr errorData ->
        (get_prop errorData (js "detail") = Undefined
         \/ exists d, get_prop errorData (js "detail") = Value d /\ truthy d = false) ->
        error (st w') = Some (js "Failed to start monitoring")).
Proof.
  cbv zeta.
  remember (PostStart (List.map trim (split_comma (symbolInput r)))
                      (parseFloat (to_string (riskPercentage r)))
                      (parseFloat (to_string (accountSize r)))) as start eqn:Hs.
  assert (Hneq : forall l : list request,
            l ++ [start] <> l ++ [start; GetMonitorStatus]).
  { intros l F. apply app_inv_head in F. discriminate. }
  split; [|split; [|split; [|split; [|split; [|split; [|split; [|split]]]]]]].
  - run_ops. run_ops. rewrite <- Hs. cbn.
    destruct (net (requests w) start) as [m|resp]; cbn; [auto|].
    destruct (ok resp); cbn.
    + destruct (net (requests w ++ [start]) GetMonitorStatus) as [m|[code [e|data]]];
        cbn; rewrite <- app_assoc; auto.
    + destruct (body resp) as [e|errorData]; cbn; [auto|].
      destruct (get_prop errorData (js "detail")) as [| |d]; cbn; [auto | auto |].
      destruct (truthy d); cbn; [|auto]. destruct (converts d); cbn; auto.
  - run_ops. run_ops. rewrite <- Hs. cbn.
    destruct (net (requests w) start) as [m|resp]; cbn.
    + split; [intros F; destruct (Hneq _ F) | intros (resp & F & _); discriminate].
    + destruct (ok resp) eqn:Hok; cbn.
      * destruct (net (requests w ++ [start]) GetMonitorStatus)
          as [m|[code [e|data]]]; cbn; rewrite <- app_assoc; split; eauto.
      * assert (Hno : ~ exists resp0, Responded resp = Responded resp0 /\ ok resp0 = true).
        { intros (resp0 & F & Hok0). injection F as <-. congruence. }
        destruct (body resp) as [e|errorData]; cbn;
          [split; [intros F; destruct (Hneq _ F) | intros F; destruct (Hno F)]|].
        destruct (get_prop errorData (js "detail")) as [| |d]; cbn;
          [split; [intros F; destruct (Hneq _ F) | intros F; destruct (Hno F)]
          |split; [intros F; destruct (Hneq _ F) | intros F; destruct (Hno F)]|].
        destruct (truthy d); cbn;
          [|split; [intros F; destruct (Hneq _ F) | intros F; destruct (Hno F)]].
        destruct (converts d); cbn;
          (split; [intros F; destruct (Hneq _ F) | intros F; destruct (Hno F)]).
  - intros Hno. run_ops. run_ops. rewrite <- Hs. cbn.
    destruct (net (requests w) start) as [m|resp]; cbn; [eauto|].
    destruct (ok resp) eqn:Hok; [exfalso; apply Hno; eauto|]. cbn.
    destruct (body resp) as [e|errorData]; cbn; [eauto|].
    destruct (get_prop errorData (js "detail")) as [| |d]; cbn; [eauto | eauto |].
    destruct (truthy d); cbn; [|eauto]. destruct (converts d); cbn; eauto.
  - intros resp E Hok. run_ops. run_ops. rewrite <- Hs. cbn. rewrite E. cbn. rewrite Hok. cbn.
    destruct (net (requests w ++ [start]) GetMonitorStatus) as [m|[code [e|data]]];
      cbn; auto.
  - intros message E. run_ops. rewrite <- Hs. cbn. rewrite E. reflexivity.
  - intros resp e E Hok Hbody.
    run_ops. rewrite <- Hs. cbn. rewrite E. cbn. rewrite Hok. cbn. rewrite Hbody. reflexivity.
  - intros resp E Hok Hbody.
    run_ops. rewrite <- Hs. cbn. rewrite E. cbn. rewrite Hok. cbn. rewrite Hbody. reflexivity.
  - intros resp errorData d E Hok Hbody Hdetail Hd.
    run_ops. rewrite <- Hs. cbn. rewrite E. cbn. rewrite Hok. cbn. rewrite Hbody. cbn.
    rewrite Hdetail. cbn. rewrite Hd. cbn. destruct (converts d); reflexivity.
  - intros resp errorData E Hok Hbody Hdetail.
    run_ops. rewrite <- Hs. cbn. rewrite E. cbn. rewrite Hok. cbn. rewrite Hbody. cbn.
    destruct Hdetail as [Hdetail|(d & Hdetail & Hd)]; rewrite Hdetail; cbn;
      [|rewrite Hd]; reflexivity.
Qed.

Lemma fetchHealthStatus_view (w : World) :
  exists w',
    fetchHealthStatus net w = (w', inr tt)
    /\ requests w' = requests w ++ [GetHealth]
    /\ symbolDetails (st w') = symbolDetails (st w)
    /\ selectedSymbol (st w') = selectedSymbol (st w)
    /\ activeView (st w') = activeView (st w)
    /\ isLoading (st w') = isLoading (st w).
Proof.
  run_ops. destruct (net (requests w) GetHealth) as [m|resp];
    cbn [TypeError exn_name exn_message].
  - destruct (_ || _); cbn; eauto 10.
  - destruct (negb (ok resp)).
    + cbn [Error exn_name exn_message]. destruct (_ || _); cbn; eauto 10.
    + destruct (body resp) as [e|data].
      * destruct (_ || _); cbn; eauto 10.
      * cbn. eauto 10.
Qed.

Lemma fetchMonitorStatus_view (w : World) :
  exists w',
    fetchMonitorStatus net w = (w', inr tt)
    /\ requests w' = requests w ++ [GetMonitorStatus]
    /\ symbolDetails (st w') = symbolDetails (st w)
    /\ selectedSymbol (st w') = selectedSymbol (st w)
    /\ activeView (st w') = activeView (st w)
    /\ isLoading (st w') = isLoading (st w)
    /\ error (st w') = error (st w).
Proof.
  run_ops. destruct (net (requests w) GetMonitorStatus) as [m|[code [e|data]]];
    cbn; eauto 10.
Qed.

Lemma fetchSignals_view (r : AppState) (w : World) :
  let w' := fst (fetchSignals net r w) in
  (monitorStatus r <> JNull -> snd (fetchSignals net r w) = inr tt)
  /\ symbolDetails (st w') = symbolDetails (st w)
  /\ selectedSymbol (st w') = selectedSymbol (st w)
  /\ activeView (st w') = activeView (st w)
  /\ isLoading (st w') = isLoading (st w)
  /\ error (st w') = error (st w).
Proof.
  cbv zeta. run_ops.
  destruct (get_prop (monitorStatus r) (js "active")) as [| |v] eqn:E; cbn.
  - split; [|auto]. intros Hn. exfalso.
    destruct (monitorStatus r) as [| | | | |fs]; unfold get_prop in E;
      [congruence | discriminate E | discriminate E | discriminate E
      | discriminate E |].
    destruct (field fs _); discriminate E.
  - auto 10.
  - destruct (truthy v); cbn; [|auto 10].
    destruct (net (requests w) GetSignals) as [m|[code [e|data]]]; cbn; auto 10.
Qed.

(** X14: a refresh never touches the detail cache, the selected symbol, the
    active view or the loading flag, whatever the backend answers.  It
    settles fulfilled unless the closure's [monitorStatus] is [null], in
    which case it rejects with a TypeError after the health and status
    requests. *)
Theorem refreshData_frame (r : AppState) (w : World) :
  let w' := fst (refreshData net r w) in
  (monitorStatus r <> JNull -> snd (refreshData net r w) = inr tt)
  /\ (monitorStatus r = JNull ->
      snd (refreshData net r w) = inl (TypeError (null_property_message (js "active")))
      /\ requests w' = requests w ++ [GetHealth; GetMonitorStatus])
  /\ symbolDetails (st w') = symbolDetails (st w)
  /\ selectedSymbol (st w') = selectedSymbol (st w)
  /\ activeView (st w') = activeView (st w)
  /\ isLoading (st w') = isLoading (st w).
Proof.
  cbv zeta.
  destruct (fetchHealthStatus_view w) as (w1 & E1 & R1 & D1 & S1 & V1 & L1).
  destruct (fetchMonitorStatus_view w1) as (w2 & E2 & R2 & D2 & S2 & V2 & L2 & _).
  destruct (fetchSignals_view r w2) as (F & D3 & S3 & V3 & L3 & _).
  assert (Hrefresh :
    refreshData net r w
    = bind (read_prop (monitorStatus r) (js "active"))
           (fun active => if truthy_opt active then fetchSignals net r else ret tt)
           w2).
  { unfold refreshData. rewrite (bind_fulfilled _ _ _ _ _ E1).
    rewrite (bind_fulfilled _ _ _ _ _ E2). reflexivity. }
  rewrite Hrefresh. unfold bind, read_prop, ret, throw.
  destruct (get_prop (monitorStatus r) (js "active")) as [| |v] eqn:G; cbn.
  - split; [|split].
    + intros Hn. exfalso.
      destruct (monitorStatus r) as [| | | | |fs]; unfold get_prop in G;
        [congruence | discriminate G | discriminate G | discriminate G
        | discriminate G |].
      destruct (field fs _); discriminate G.
    + intros _. split; [reflexivity|]. rewrite R2, R1, <- app_assoc. reflexivity.
    + repeat split; congruence.
  - split; [reflexivity|]. split; [|repeat split; congruence].
    intros Hn. rewrite Hn in G. discriminate G.
  - split; [|split].
    + intros Hn. destruct (truthy v); [exact (F Hn) | reflexivity].
    + intros Hn. rewrite Hn in G. discriminate G.
    + destruct (truthy v); cbn; repeat split; congruence.
Qed.

Lemma app_two {A} (l : list A) (a b : A) : (l ++ [a]) ++ [b] = l ++ [a; b].
Proof. rewrite <- app_assoc. reflexivity. Qed.

Lemma app_three {A} (l : list A) (a b c : A) :
  ((l ++ [a]) ++ [b]) ++ [c] = l ++ [a; b; c].
Proof. rewrite <- !app_assoc. reflexivity. Qed.

Lemma app_four {A} (l : list A) (a b c d : A) :
  (((l ++ [a]) ++ [b]) ++ [c]) ++ [d] = l ++ [a; b; c; d].
Proof. rewrite <- !app_assoc. reflexivity. Qed.

(** X15: the four sub-requests of [fetchSymbolDetails] go out one after the
    other, each awaited before the next: a network failure of one of them
    means the later ones are never issued, while a response, whatever its
    status or body, lets the sequence go on.  A symbol with a lone
    surrogate is refused by [encodeURIComponent] before any request. *)
Theorem fetchSymbolDetails_requests_in_sequence
        (r : AppState) (symbol : jsstring) (w : World) :
  let chartReq := PostChart symbol in
  let levelsReq := PostLevels symbol in
  let analyze :=
    PostAnalyze symbol (to_string (riskPercentage r)) (to_string (accountSize r)) in
  let priceReq := PostPrice symbol in
  let w' := fst (fetchSymbolDetails net r symbol w) in
  (well_formed_utf16 symbol = false ->
     requests w' = requests w
     /\ symbolDetails (st w') = symbolDetails (st w)
     /\ error (st w') = Some (js "Failed to fetch details for " ++ symbol))
  /\ (well_formed_utf16 symbol = true ->
      (forall m, net (requests w) chartReq = NetworkError m ->
         requests w' = requests w ++ [chartReq])
      /\ (forall r1 m,
            net (requests w) chartReq = Responded r1 ->
            net (requests w ++ [chartReq]) levelsReq = NetworkError m ->
            requests w' = requests w ++ [chartReq; levelsReq])
      /\ (forall r1 r2 m,
            net (requests w) chartReq = Responded r1 ->
            net (requests w ++ [chartReq]) levelsReq = Responded r2 ->
            net (requests w ++ [chartReq; levelsReq]) analyze = NetworkError m ->
            requests w' = requests w ++ [chartReq; levelsReq; analyze])
      /\ (forall r1 r2 r3,
            net (requests w) chartReq = Responded r1 ->
            net (requests w ++ [chartReq]) levelsReq = Responded r2 ->
            net (requests w ++ [chartReq; levelsReq]) analyze = Responded r3 ->
            requests w' = requests w ++ [chartReq; levelsReq; analyze; priceReq])).
Proof.
  cbv zeta.
  remember (PostAnalyze symbol (to_string (riskPercentage r))
                        (to_string (accountSize r))) as analyze eqn:Ha.
  split.
  - intros Hwf. run_ops. rewrite Hwf. cbn. auto.
  - intros Hwf. split; [|split; [|split]].
    + intros m E1. run_ops. rewrite Hwf. cbn. rewrite E1. reflexivity.
    + intros r1 m E1 E2. run_ops. rewrite Hwf. cbn. rewrite E1. cbn. rewrite E2. cbn.
      apply app_two.
    + intros r1 r2 m E1 E2 E3. rewrite <- app_two in E3.
      run_ops. rewrite <- Ha, Hwf. cbn. rewrite E1. cbn. rewrite E2. cbn. rewrite E3.
      cbn. apply app_three.
    + intros r1 r2 r3 E1 E2 E3. rewrite <- app_two in E3.
      run_ops. rewrite <- Ha, Hwf. cbn. rewrite E1. cbn. rewrite E2. cbn. rewrite E3.
      cbn.
      destruct (net (((requests w ++ [PostChart symbol]) ++ [PostLevels symbol])
                       ++ [analyze]) (PostPrice symbol)) as [m|r4]; cbn;
        [apply app_four|].
      destruct (body r1), (body r2), (body r3), (body r4); cbn; apply app_four.
Qed.

(** With a backend whose every answer parses, a fetch of the details of an
    encodable symbol commits. *)
Lemma fetchSymbolDetails_commit (r : AppState) (symbol : jsstring) (w : World) :
  well_formed_utf16 symbol = true ->
  (forall log req, exists data, succeeded (net log req) = Some data) ->
  exists entry,
    symbolDetails (st (fst (fetchSymbolDetails net r symbol w)))
    = <[symbol := entry]> (symbolDetails r)
    /\ selectedSymbol (st (fst (fetchSymbolDetails net r symbol w))) = Some symbol
    /\ activeView (st (fst (fetchSymbolDetails net r symbol w))) = SymbolDetailView.
Proof.
  intros Hwf Hnet. run_ops. rewrite Hwf. cbn.
  remember (PostAnalyze symbol (to_string (riskPercentage r))
                        (to_string (accountSize r))) as analyze eqn:Ha.
  destruct (Hnet (requests w) (PostChart symbol)) as [c Hc].
  destruct (net (requests w) (PostChart symbol)) as [m|[s1 [e|c']]];
    try discriminate Hc. cbn.
  destruct (Hnet (requests w ++ [PostChart symbol]) (PostLevels symbol)) as [l Hl].
  destruct (net (requests w ++ [PostChart symbol]) (PostLevels symbol))
    as [m|[s2 [e|l']]]; try discriminate Hl. cbn.
  destruct (Hnet ((requests w ++ [PostChart symbol]) ++ [PostLevels symbol]) analyze)
    as [a Ha'].
  destruct (net ((requests w ++ [PostChart symbol]) ++ [PostLevels symbol]) analyze)
    as [m|[s3 [e|a']]]; try discriminate Ha'. cbn.
  destruct (Hnet (((requests w ++ [PostChart symbol]) ++ [PostLevels symbol])
                    ++ [analyze]) (PostPrice symbol)) as [p Hp].
  destruct (net (((requests w ++ [PostChart symbol]) ++ [PostLevels symbol])
                   ++ [analyze]) (PostPrice symbol))
    as [m|[s4 [e|p']]]; try discriminate Hp. cbn.
  eauto.
Qed.

(** X16: the entry is merged into the cache of the render whose closure runs,
    not into the committed cache.  When two fetches for different symbols
    start from renders with the same cache, the second commit drops the
    entry of the first (the symbol reads as it did in that render); started
    from the state the first fetch committed, both entries are kept. *)
Theorem fetchSymbolDetails_stale_cache
        (r r2 : AppState) (s1 s2 : jsstring) (w : World) :
  well_formed_utf16 s1 = true -> well_formed_utf16 s2 = true -> s1 <> s2 ->
  (forall log req, exists data, succeeded (net log req) = Some data) ->
  symbolDetails r2 = symbolDetails r ->
  let w1 := fst (fetchSymbolDetails net r s1 w) in
  let stale := fst (fetchSymbolDetails net r2 s2 w1) in
  let fresh := fst (fetchSymbolDetails net (st w1) s2 w1) in
  is_Some (symbolDetails (st w1) !! s1)
  /\ symbolDetails (st stale) !! s1 = symbolDetails r !! s1
  /\ is_Some (symbolDetails (st stale) !! s2)
  /\ symbolDetails (st fresh) !! s1 = symbolDetails (st w1) !! s1
  /\ is_Some (symbolDetails (st fresh) !! s2).
Proof.
  intros Hwf1 Hwf2 Hne Hnet Hsame. cbv zeta.
  destruct (fetchSymbolDetails_commit r s1 w Hwf1 Hnet) as (e1 & C1 & _).
  set (w1 := fst (fetchSymbolDetails net r s1 w)) in *.
  destruct (fetchSymbolDetails_commit r2 s2 w1 Hwf2 Hnet) as (e2 & C2 & _).
  destruct (fetchSymbolDetails_commit (st w1) s2 w1 Hwf2 Hnet) as (e3 & C3 & _).
  rewrite C2, C3, Hsame. rewrite C1.
  rewrite !lookup_insert_eq.
  rewrite !(lookup_insert_ne _ s2 s1) by congruence.
  rewrite lookup_insert_eq. eauto.
Qed.

(** X17: right after a fetch that commits, the view is the detail view and
    its guard lets the details through exactly when the symbol is not the
    empty string: for the empty symbol the view stays on 'Loading symbol
    details...' although its entry is in the cache. *)
Theorem detail_view_after_fetch
        (object_prototype_has : jsstring -> bool)
        (r : AppState) (symbol : jsstring) (w : World) :
  well_formed_utf16 symbol = true ->
  (forall log req, exists data, succeeded (net log req) = Some data) ->
  let w' := fst (fetchSymbolDetails net r symbol w) in
  activeView (st w') = SymbolDetailView
  /\ renderSymbolDetail_loading object_prototype_has (st w')
     = negb (nonempty symbol).
Proof.
  intros Hwf Hnet. cbv zeta.
  destruct (fetchSymbolDetails_commit r symbol w Hwf Hnet) as (entry & C & S & V).
  split; [exact V|]. unfold renderSymbolDetail_loading.
  rewrite S, C, lookup_insert_eq. cbn. apply orb_false_r.
Qed.

(** X19: the error banner after a refresh is the one the health check left:
    whatever the status and signals requests do, fail or succeed, they
    neither set nor clear it. *)
Theorem refreshData_error_is_health (r : AppState) (w : World) :
  error (st (fst (refreshData net r w)))
  = error (st (fst (fetchHealthStatus net w))).
Proof.
  destruct (fetchHealthStatus_view w) as (w1 & E1 & _).
  destruct (fetchMonitorStatus_view w1) as (w2 & E2 & _ & _ & _ & _ & _ & B2).
  destruct (fetchSignals_view r w2) as (_ & _ & _ & _ & _ & B3).
  unfold refreshData. rewrite (bind_fulfilled _ _ _ _ _ E1).
  rewrite (bind_fulfilled _ _ _ _ _ E2). rewrite E1. cbn [fst]. rewrite <- B2.
  unfold bind, read_prop, ret, throw.
  destruct (get_prop (monitorStatus r) (js "active")) as [| |v]; cbn;
    [reflexivity | reflexivity |].
  destruct (truthy v); [exact B3 | reflexivity].
Qed.

End ControllerExtras.


(** ** The further properties on concrete inputs *)

Lemma initialSelected_keys_and_marks_example :
  let m := Selector.initialSelected (js "NAS100, foo") in
  In (js "NAS100") Selector.allCommonSymbols
  /\ ~ In (js "foo") Selector.allCommonSymbols
  /\ Selector.obj_get m (js "NAS100") = Some true
  /\ Selector.obj_get m (js "foo") = None.
Proof.
  intros m.
  assert (Hin : In (js "NAS100") Selector.allCommonSymbols)
    by (apply includes_In; vm_compute; reflexivity).
  assert (Hout : ~ In (js "foo") Selector.allCommonSymbols).
  { intros F. apply includes_In in F. vm_compute in F. discriminate. }
  destruct (initialSelected_keys_and_marks (js "NAS100, foo")) as (_ & Hcat & Hother).
  split; [exact Hin|]. split; [exact Hout|]. split.
  - etransitivity; [exact (proj1 (Hcat _ Hin)) | vm_compute; reflexivity].
  - exact (Hother _ Hout).
Defined.

Lemma toggleCategory_flips_one_example :
  let category := js "Crypto" in
  In category (Selector.obj_keys initialExpanded)
  /\ Selector.obj_truthy (toggleCategory initialExpanded category) category = false
  /\ toggleCategory (toggleCategory initialExpanded category) category
     = initialExpanded.
Proof.
  intros category.
  assert (Hkey : In category (Selector.obj_keys initialExpanded))
    by (apply includes_In; vm_compute; reflexivity).
  destruct (toggleCategory_flips_one initialExpanded category) as (Hflip & _ & Htwice & _).
  split; [exact Hkey|]. split; [|exact (Htwice Hkey)].
  etransitivity; [exact Hflip | vm_compute; reflexivity].
Defined.

Lemma fetchSignals_replaces_signals_example :
  let running := with_monitorStatus (@JObj example_engine [(js "active", JBool true)])
                                    example_state in
  let data := @JObj example_engine [(js "EURUSD", JArr [])] in
  let backend := always (Responded (mkResponse 503 (inr data))) in
  monitor_active running = true
  /\ signals (st (fst (fetchSignals backend running example_world))) = data.
Proof.
  intros running data backend.
  destruct (@fetchSignals_replaces_signals example_engine backend running example_world
              eq_refl) as (Hok & _).
  split; [reflexivity|]. rewrite (Hok 503 data eq_refl). reflexivity.
Defined.

Lemma fetchHealthStatus_http_status_example :
  let resp := @mkResponse example_engine 503
                (inl (mkExn (js "SyntaxError") (js "Unexpected token"))) in
  let backend := always (Responded resp) in
  ok resp = false
  /\ error (st (fst (fetchHealthStatus backend example_world)))
     = Some (js "Could not connect to API server: HTTP error! Status: 503")
  /\ healthStatus (st (fst (fetchHealthStatus backend example_world)))
     = healthStatus example_state.
Proof.
  intros resp backend.
  destruct (@fetchHealthStatus_http_status example_engine backend example_world resp
              eq_refl eq_refl) as (Hrun & Hhealth).
  split; [reflexivity|]. split; [|exact Hhealth].
  rewrite Hrun. vm_compute. reflexivity.
Defined.

Lemma stopMonitoring_outcomes_example :
  let errorData := @JObj example_engine [(js "detail", JStr (js "Monitor not running"))] in
  let refused := always (Responded (mkResponse 400 (inr errorData))) in
  let silent := always (Responded (mkResponse 500 (inr (@JObj example_engine [])))) in
  let garbled :=
    always (Responded (@mkResponse example_engine 502
                         (inl (mkExn (js "SyntaxError") (js "Unexpected token"))))) in
  let down := always (@NetworkError example_engine (js "Failed to fetch")) in
  error (st (fst (stopMonitoring refused example_world)))
    = Some (js "Monitor not running")
  /\ error (st (fst (stopMonitoring silent example_world)))
     = Some (js "Failed to stop monitoring")
  /\ error (st (fst (stopMonitoring garbled example_world)))
     = Some (js "Unexpected token")
  /\ error (st (fst (stopMonitoring down example_world))) = Some (js "Failed to fetch")
  /\ monitorStatus (st (fst (stopMonitoring down example_world)))
     = monitorStatus example_state.
Proof.
  intros errorData refused silent garbled down.
  destruct (@stopMonitoring_outcomes example_engine refused example_world)
    as (_ & _ & _ & _ & _ & _ & _ & Hdetail & _).
  destruct (@stopMonitoring_outcomes example_engine silent example_world)
    as (_ & _ & _ & _ & _ & _ & _ & _ & Hfallback).
  destruct (@stopMonitoring_outcomes example_engine garbled example_world)
    as (_ & _ & _ & _ & _ & Hgarbled & _).
  destruct (@stopMonitoring_outcomes example_engine down example_world)
    as (_ & _ & Hframe & _ & Hdown & _).
  split; [|split; [|split; [|split]]].
  - exact (Hdetail _ errorData (JStr (js "Monitor not running"))
             eq_refl eq_refl eq_refl eq_refl eq_refl).
  - exact (Hfallback _ (JObj []) eq_refl eq_refl eq_refl (or_introl eq_refl)).
  - exact (Hgarbled _ _ eq_refl eq_refl eq_refl).
  - exact (Hdown _ eq_refl).
  - apply Hframe. intros (resp & F & _). discriminate F.
Defined.

Lemma startMonitoring_failure_paths_example :
  let errors := @JArr example_engine [JObj [(js "msg", JStr (js "field required"))];
                                      JObj [(js "msg", JStr (js "bad value"))]] in
  let errorData := JObj [(js "detail", errors)] in
  let invalid := always (Responded (mkResponse 422 (inr errorData))) in
  let shadowed := @JObj example_engine [(js "toString", @JNum example_engine 1)] in
  let odd := always (Responded (mkResponse 400 (inr (JObj [(js "detail", shadowed)])))) in
  let down := always (@NetworkError example_engine (js "Load failed")) in
  error (st (fst (startMonitoring invalid example_state example_world)))
    = Some (js "[object Object],[object Object]")
  /\ error (st (fst (startMonitoring odd example_state example_world)))
     = Some (js "Cannot convert object to primitive value")
  /\ error (st (fst (startMonitoring down example_state example_world)))
     = Some (js "Load failed")
  /\ monitorStatus (st (fst (startMonitoring down example_state example_world)))
     = monitorStatus example_state.
Proof.
  intros errors errorData invalid shadowed odd down.
  destruct (@startMonitoring_failure_paths example_engine invalid example_state
              example_world) as (_ & _ & _ & _ & _ & _ & _ & Hdetail & _).
  destruct (@startMonitoring_failure_paths example_engine odd example_state
              example_world) as (_ & _ & _ & _ & _ & _ & _ & Hodd & _).
  destruct (@startMonitoring_failure_paths example_engine down example_state
              example_world) as (_ & _ & Hframe & _ & Hdown & _).
  split; [|split; [|split]].
  - etransitivity;
      [exact (Hdetail _ errorData errors eq_refl eq_refl eq_refl eq_refl eq_refl)
      | vm_compute; reflexivity].
  - etransitivity;
      [exact (Hodd _ (JObj [(js "detail", shadowed)]) shadowed
                eq_refl eq_refl eq_refl eq_refl eq_refl)
      | vm_compute; reflexivity].
  - exact (Hdown _ eq_refl).
  - apply Hframe. intros (resp & F & _). discriminate F.
Defined.

Lemma refreshData_frame_example :
  let backend := always (@NetworkError example_engine (js "Failed to fetch")) in
  let broken := with_monitorStatus (@JNull example_engine) example_state in
  monitorStatus example_state <> JNull
  /\ snd (refreshData backend example_state example_world) = inr tt
  /\ monitorStatus broken = JNull
  /\ requests (fst (refreshData backend broken example_world))
     = [GetHealth; GetMonitorStatus].
Proof.
  intros backend broken.
  assert (Hn : monitorStatus example_state <> JNull) by discriminate.
  destruct (@refreshData_frame example_engine backend example_state example_world)
    as (Hok & _).
  destruct (@refreshData_frame example_engine backend broken example_world)
    as (_ & Hnull & _).
  split; [exact Hn|]. split; [exact (Hok Hn)|]. split; [reflexivity|].
  exact (proj2 (Hnull eq_refl)).
Defined.

Lemma fetchSymbolDetails_requests_in_sequence_example :
  let symbol := js "EURUSD" in
  let backend := fun (_ : list (@request example_engine)) (req : @request example_engine) =>
    match req with
    | PostLevels _ => @NetworkError example_engine (js "Failed to fetch")
    | _ => Responded (mkResponse 404
                        (inl (mkExn (js "SyntaxError") (js "Unexpected token"))))
    end in
  well_formed_utf16 symbol = true
  /\ requests (fst (fetchSymbolDetails backend example_state symbol example_world))
     = [PostChart symbol; PostLevels symbol].
Proof.
  intros symbol backend.
  destruct (@fetchSymbolDetails_requests_in_sequence example_engine backend
              example_state symbol example_world) as (_ & Hseq).
  destruct (Hseq eq_refl) as (_ & H2 & _).
  split; [reflexivity|].
  exact (H2 _ (js "Failed to fetch") eq_refl eq_refl).
Defined.

Lemma fetchSymbolDetails_stale_cache_example :
  let backend := always (Responded (mkResponse 200 (inr (@JObj example_engine [])))) in
  let loading := with_isLoading true example_state in
  let w1 := fst (fetchSymbolDetails backend example_state (js "EURUSD") example_world) in
  let stale := fst (fetchSymbolDetails backend loading (js "GBPUSD") w1) in
  is_Some (symbolDetails (st w1) !! js "EURUSD")
  /\ symbolDetails (st stale) !! js "EURUSD" = None
  /\ is_Some (symbolDetails (st stale) !! js "GBPUSD").
Proof.
  intros backend loading w1 stale.
  assert (Hnet : forall log req, exists data, succeeded (backend log req) = Some data)
    by (intros log req; eexists; reflexivity).
  assert (Hne : js "EURUSD" <> js "GBPUSD") by (vm_compute; discriminate).
  destruct (@fetchSymbolDetails_stale_cache example_engine backend example_state loading
              (js "EURUSD") (js "GBPUSD") example_world eq_refl eq_refl Hne Hnet eq_refl)
    as (H1 & H2 & H3 & _).
  split; [exact H1|]. split; [exact H2 | exact H3].
Defined.

Lemma detail_view_after_fetch_example :
  let backend := always (Responded (mkResponse 200 (inr (@JObj example_engine [])))) in
  let inherits := fun s : jsstring => str_eqb s (js "constructor") in
  renderSymbolDetail_loading inherits
    (st (fst (fetchSymbolDetails backend example_state [] example_world))) = true
  /\ renderSymbolDetail_loading inherits
       (st (fst (fetchSymbolDetails backend example_state (js "EURUSD") example_world)))
     = false.
Proof.
  intros backend inherits.
  assert (Hnet : forall log req, exists data, succeeded (backend log req) = Some data)
    by (intros log req; eexists; reflexivity).
  split.
  - exact (proj2 (@detail_view_after_fetch example_engine backend inherits
                    example_state [] example_world eq_refl Hnet)).
  - exact (proj2 (@detail_view_after_fetch example_engine backend inherits
                    example_state (js "EURUSD") example_world eq_refl Hnet)).
Defined.
